(** * A shallow embedding of [CSVFileParser], the CSV engine of node-csv

    The engine is modelled as an explicit state record threaded through
    its operations ([open], [close], [buildIndex], [rewind], [iterator],
    [getLine]); fallible operations return a [result].  The file on disk
    is a [string] of one-byte characters ([disk]); the model reads it as
    an ASCII file, where a JS string length, a UTF-8 byte count and a
    character count coincide. *)

From Stdlib Require Import String Ascii List ZArith Bool Lia.
Import ListNotations.
Open Scope string_scope.
Open Scope Z_scope.

(** ** Errors and the result monad *)

(** [StateError]: the lifecycle guards ("file is not open", "file is not
    indexed", "already open"); [RangeError]: the "line index out of range"
    error of [getLine]; [TypeError]: a JS TypeError (a property read on
    [undefined]/[null] or a private member read through an unbound [this]);
    [IOError]: a failure of the positioned read [fs.read]. *)
Inductive err := StateError | RangeError | TypeError | IOError.

Inductive result (A : Type) := Ok (a : A) | Error (e : err).
Arguments Ok {A} a.
Arguments Error {A} e.

Definition bind {A B} (m : result A) (k : A -> result B) : result B :=
  match m with Ok a => k a | Error e => Error e end.

Notation "x <- m ;; k" := (bind m (fun x => k))
  (at level 61, m at next level, right associativity).

Definition err_of {A} (r : result A) : option err :=
  match r with Ok _ => None | Error e => Some e end.

(** ** Characters *)

Definition LF : ascii := ascii_of_nat 10.
Definition CR : ascii := ascii_of_nat 13.
Definition NUL : ascii := ascii_of_nat 0.
Definition COMMA : ascii := ",".

(** [String.prototype.split(',')]: always at least one piece. *)
Fixpoint splitCSVLine (s : string) : list string :=
  match s with
  | EmptyString => [""]
  | String c t =>
      if Ascii.eqb c COMMA then "" :: splitCSVLine t
      else match splitCSVLine t with
           | h :: r => String c h :: r
           | [] => [String c EmptyString]
           end
  end.

(** JS white space on the ASCII range (tab, LF, VT, FF, CR, space); NUL is
    not white space. *)
Definition is_js_space (c : ascii) : bool :=
  let n := nat_of_ascii c in
  ((9 <=? n)%nat && (n <=? 13)%nat) || (n =? 32)%nat.

Fixpoint drop_space (l : list ascii) : list ascii :=
  match l with
  | c :: t => if is_js_space c then drop_space t else l
  | [] => []
  end.

(** [String.prototype.trim] *)
Definition trim (s : string) : string :=
  string_of_list_ascii
    (rev (drop_space (rev (drop_space (list_ascii_of_string s))))).

(** ** A plain JS object used as the [fields] map

    Own properties in insertion order (the order JS enumerates them in
    when no key is an array index, see [not_index_key]); [proto_null] records that the
    inherited [__proto__] accessor was used to set the prototype to [null]
    (after which [__proto__] is an ordinary key).  Inherited properties of
    [Object.prototype] other than [__proto__] are functions, which the
    decoder treats like absent keys, so they are not represented. *)
Inductive fieldval :=
| FNull
| FStr (s : string)
| FArr (l : list (option string)).

Record jsobj := mkobj { props : list (string * fieldval); proto_null : bool }.

Fixpoint lookup (k : string) (l : list (string * fieldval)) : option fieldval :=
  match l with
  | [] => None
  | (k', v) :: t => if String.eqb k k' then Some v else lookup k t
  end.

Fixpoint update (k : string) (v : fieldval) (l : list (string * fieldval))
  : list (string * fieldval) :=
  match l with
  | [] => [(k, v)]
  | (k', v') :: t => if String.eqb k k' then (k, v) :: t else (k', v') :: update k v t
  end.

(** What a read [obj[k]] returns: [undefined], an own value, or the object
    [Object.prototype] returned by the [__proto__] accessor. *)
Inductive jsget := GUndef | GVal (v : fieldval) | GProto.

Definition proto_accessor (o : jsobj) (k : string) : bool :=
  String.eqb k "__proto__" && negb (proto_null o).

Definition obj_get (o : jsobj) (k : string) : jsget :=
  if proto_accessor o k then GProto
  else match lookup k (props o) with Some v => GVal v | None => GUndef end.

(** [obj[k] = v].  Through the [__proto__] accessor, a string is ignored and
    [null] sets the prototype to [null]; the decoder never assigns an array
    there (it only builds an array after reading a string). *)
Definition obj_set (o : jsobj) (k : string) (v : fieldval) : jsobj :=
  if proto_accessor o k then
    match v with
    | FNull => mkobj (props o) true
    | _ => o
    end
  else mkobj (update k v (props o)) (proto_null o).


(** ** Row records ([CSVObjectLine]) *)

Record CSVObjectLine := mkline {
  index : Z;
  line : string;
  cells : list string;
  hasMissingCells : bool;
  hasExcessCells : bool;
  fields : jsobj
}.

(** [new CSVObjectLine({ index, line, cells })] *)
Definition newCSVObjectLine (i : Z) (l : string) (cs : list string) : CSVObjectLine :=
  mkline i l cs false false (mkobj [("_unnamed", FArr [])] false).

(** ** The row decoder ([#buildLineObject]) *)

(** [cells[i] || null]: a missing or empty cell is [null]. *)
Definition cell_at (cs : list string) (i : nat) : option string :=
  match nth_error cs i with
  | Some s => if String.eqb s "" then None else Some s
  | None => None
  end.

Definition of_cell (c : option string) : fieldval :=
  match c with None => FNull | Some s => FStr s end.

(** The assignment shared by both branches of the decoder:
    a string becomes [[old, cell]], an array is pushed to, anything else
    is overwritten. *)
Definition assign (o : jsobj) (col : string) (cell : option string) : jsobj :=
  match obj_get o col with
  | GVal (FStr s) => obj_set o col (FArr [Some s; cell])
  | GVal (FArr l) => obj_set o col (FArr (l ++ [cell]))
  | _ => obj_set o col (of_cell cell)
  end.

(** [result.fields._unnamed.push(cell)] *)
Definition push_unnamed (o : jsobj) (cell : option string) : result jsobj :=
  match obj_get o "_unnamed" with
  | GVal (FArr l) => Ok (obj_set o "_unnamed" (FArr (l ++ [cell])))
  | _ => Error TypeError
  end.

(** One iteration of the loop of the excess-cell branch. *)
Definition excess_step (hdr cs : list string) (acc : result jsobj) (i : nat)
  : result jsobj :=
  o <- acc ;;
  let cell := cell_at cs i in
  match nth_error hdr i with
  | None => push_unnamed o cell
  | Some col =>
      if String.eqb col "" then push_unnamed o cell
      else Ok (assign o col cell)
  end.

Definition excess_fields (hdr cs : list string) (o : jsobj) : result jsobj :=
  fold_left (excess_step hdr cs) (seq 0 (List.length cs)) (Ok o).

(** One iteration of the loop of the other branch ([i < _header.length]). *)
Definition normal_step (hdr cs : list string) (o : jsobj) (i : nat) : jsobj :=
  assign o (nth i hdr "") (cell_at cs i).

Definition normal_fields (hdr cs : list string) (o : jsobj) : jsobj :=
  fold_left (normal_step hdr cs) (seq 0 (List.length hdr)) o.

(** ** The engine state ([CSVFileParser]'s private fields) *)

(** The [header] option of [#buildLineObject]: [null], a string (split on
    use) or an array of column names. *)
Inductive hdrarg := HNull | HStr (s : string) | HArr (l : list string).

(** The suspended async generator of [iterator()]: its local [header], its
    local [index], and the readline interface it reads
    ([scopeIteratorStream]), as the lines still to deliver ([None]: [null]). *)
Record gen := mkgen {
  g_header : hdrarg;
  g_index : Z;
  g_stream : option (list string)
}.

(** [#input_stream] and [#iterator_stream] are created and dropped together;
    [iterator_stream] stands for both, as the lines the readline interface
    has still to deliver ([None]: [null]).  [reading_handle] is the
    positioned-read file descriptor ([None]: [null]). *)
Record CSVFileParser := mkparser {
  filename : string;
  header : option (list string);
  index_pool : list (Z * Z);
  lines : Z;
  columns : Z;
  size : Z;
  iterator_stream : option (list string);
  reading_handle : option Z;
  iterator_object : option gen;
  is_open : bool;
  is_indexed : bool;
  is_iterator_active : bool;
  reading_buffer : option (list ascii);
  line_divisor : string
}.

(** ** The decoder *)

(** [#buildLineObject(line, index, { header })] called with receiver [self]
    ([None]: called unbound, [this] is [undefined] in class code).  Every
    [this.#...] read on [undefined] is a TypeError, and so is [_header.length]
    on [null]. *)
Definition buildLineObject (self : option CSVFileParser) (l : string) (i : Z)
    (hd : hdrarg) : result CSVObjectLine :=
  (* if (typeof header === 'string') header = this.#splitCSVLine(header) *)
  hd1 <- match hd with
         | HStr s => match self with
                     | Some _ => Ok (HArr (splitCSVLine s))
                     | None => Error TypeError
                     end
         | _ => Ok hd
         end ;;
  (* const _header = header || this.#header *)
  h <- match hd1 with
       | HArr a => Ok (Some a)
       | _ => match self with
              | Some p => Ok (header p)
              | None => Error TypeError
              end
       end ;;
  (* const cells = this.#splitCSVLine(line) *)
  cs <- match self with
        | Some _ => Ok (splitCSVLine l)
        | None => Error TypeError
        end ;;
  let r := newCSVObjectLine i l cs in
  match h with
  | None => Error TypeError
  | Some hdr =>
      if (List.length hdr <? List.length cs)%nat then
        f <- excess_fields hdr cs (fields r) ;;
        Ok (mkline (index r) (line r) (cells r) (hasMissingCells r) true f)
      else
        Ok (mkline (index r) (line r) (cells r) (hasMissingCells r)
              (hasExcessCells r) (normal_fields hdr cs (fields r)))
  end.

(** ** The platform: readline and the file *)

(** Node's readline with [crlfDelay: Infinity]: a line ends at CR LF, LF or
    a lone CR (the terminator is not part of the line); a final unterminated
    line is delivered when it is not empty.  The bytes of the file are taken
    one character each: the UTF-8 decoding of the stream, for an ASCII file
    (see [ascii_file]). *)
Fixpoint rl_lines (s : list ascii) (cur : list ascii) : list string :=
  match s with
  | [] => match cur with [] => [] | _ => [string_of_list_ascii (rev cur)] end
  | c :: t =>
      if Ascii.eqb c LF then string_of_list_ascii (rev cur) :: rl_lines t []
      else if Ascii.eqb c CR then
        string_of_list_ascii (rev cur) ::
          match t with
          | c2 :: t2 => if Ascii.eqb c2 LF then rl_lines t2 [] else rl_lines t []
          | [] => rl_lines t []
          end
      else rl_lines t (c :: cur)
  end.

Definition readline_lines (disk : string) : list string :=
  rl_lines (list_ascii_of_string disk) [].

Definition LFs : string := String LF EmptyString.
Definition CRLF : string := String CR (String LF EmptyString).

Fixpoint has_crlf (l : list ascii) : bool :=
  match l with
  | a :: t => match t with
              | b :: _ => (Ascii.eqb a CR && Ascii.eqb b LF) || has_crlf t
              | [] => false
              end
  | [] => false
  end.

(** The divisor sniffing of [open()]: the first 8 KiB of the file, read into
    a zero-filled buffer, searched for CR LF. *)
Definition sniff_divisor (disk : string) : string :=
  let bytes := firstn (1024 * 8) (list_ascii_of_string disk) in
  let tempbuffer := (bytes ++ repeat NUL (1024 * 8 - List.length bytes))%list in
  if has_crlf tempbuffer then CRLF else LFs.

(** [#readAtIndex(index, length)] with [fs.read(fd, buffer, 0, length,
    index)]: the shared [#reading_buffer] (or a fresh [Buffer.alloc(length)])
    receives the bytes read (fewer at end of file, the rest of the buffer
    keeps its old contents); [fs.read] rejects a [length] larger than the
    buffer and an empty buffer (ERR_OUT_OF_RANGE, ERR_INVALID_ARG_VALUE, which
    reject the promise).  Returns the buffer to keep and
    [buffer.slice(0, length).toString().trim()], decoding one byte per
    character, which is UTF-8 decoding on ASCII bytes (and [trim] strips the
    JS white space of the ASCII range). *)
Definition readAtIndex (disk : string) (rb : option (list ascii)) (off len : Z)
    : result (option (list ascii) * string) :=
  let n := Z.to_nat len in
  let buffer := match rb with Some b => b | None => repeat NUL n end in
  if (n =? 0)%nat then Ok (rb, "")
  else if (List.length buffer =? 0)%nat then Error IOError
  else if (List.length buffer <? n)%nat then Error IOError
  else
    let got := firstn n (skipn (Z.to_nat off) (list_ascii_of_string disk)) in
    let buffer' := (got ++ skipn (List.length got) buffer)%list in
    Ok (match rb with Some _ => Some buffer' | None => None end,
        trim (string_of_list_ascii (firstn n buffer'))).

(** ** Lifecycle: constructor, [open], [close], [rewind] *)

(** [new CSVFileParser(filename, { open })] *)
Definition fresh_parser (fname : string) : CSVFileParser := {|
  filename := fname; header := None; index_pool := [];
  lines := 0; columns := 0; size := 0;
  iterator_stream := None; reading_handle := None; iterator_object := None;
  is_open := false; is_indexed := false; is_iterator_active := false;
  reading_buffer := None; line_divisor := LFs |}.

(** [open()]: new read stream and readline interface over the whole file,
    the positioned-read descriptor kept or opened, and the divisor sniffed
    when [#line_divisor] is falsy (the empty string).  [fd] is the descriptor
    [fs.openSync] returns when none is kept. *)
Definition open (disk : string) (fd : Z) (st : CSVFileParser) : result CSVFileParser :=
  if is_open st then Error StateError
  else Ok {|
    filename := filename st; header := header st; index_pool := index_pool st;
    lines := lines st; columns := columns st; size := size st;
    iterator_stream := Some (readline_lines disk);
    reading_handle := match reading_handle st with
                      | Some h => Some h
                      | None => Some fd
                      end;
    iterator_object := iterator_object st;
    is_open := true; is_indexed := is_indexed st;
    is_iterator_active := is_iterator_active st;
    reading_buffer := reading_buffer st;
    line_divisor := if String.eqb (line_divisor st) "" then sniff_divisor disk
                    else line_divisor st |}.

Definition CSVFileParser_new (disk : string) (fd : Z) (fname : string) (op : bool)
    : result CSVFileParser :=
  let st := fresh_parser fname in
  if op then open disk fd st else Ok st.

(** [close({ preserveFileHandle })] *)
Definition close (preserveFileHandle : bool) (st : CSVFileParser)
    : result CSVFileParser :=
  if negb (is_open st) then Error StateError
  else Ok {|
    filename := filename st; header := header st; index_pool := index_pool st;
    lines := lines st; columns := columns st; size := size st;
    iterator_stream := None;
    reading_handle := if preserveFileHandle then reading_handle st else None;
    iterator_object := iterator_object st;
    is_open := false; is_indexed := is_indexed st;
    is_iterator_active := is_iterator_active st;
    reading_buffer := reading_buffer st; line_divisor := line_divisor st |}.

(** [rewind()] *)
Definition rewind (disk : string) (fd : Z) (st : CSVFileParser) : result CSVFileParser :=
  if negb (is_open st) then Error StateError
  else st1 <- close true st ;; open disk fd st1.

(** ** [buildIndex({ max })] (without progress printing, an observer) *)

(** The locals of the indexing loop together with the fields it writes. *)
Record idx_acc := mkacc {
  a_lines : Z;
  a_size : Z;
  a_header : option (list string);
  a_columns : Z;
  a_pool : list (Z * Z);
  a_maxLength : Z
}.

(** The [for await] loop over the readline interface; [div] is
    [this.#line_divisor.length]. *)
Fixpoint index_loop (div max : Z) (ls : list string) (a : idx_acc) : idx_acc :=
  match ls with
  | [] => a
  | l :: rest =>
      let len := Z.of_nat (String.length l) in
      if a_lines a =? 0 then
        let h := splitCSVLine l in
        index_loop div max rest
          (mkacc (a_lines a + 1) (a_size a + len + div) (Some h)
                 (Z.of_nat (List.length h)) (a_pool a) (a_maxLength a))
      else if (0 <=? max) && (max <=? a_lines a) then a
      else
        index_loop div max rest
          (mkacc (a_lines a + 1) (a_size a + len + div) (a_header a) (a_columns a)
                 (a_pool a ++ [(a_size a, len + div)])
                 (if a_maxLength a <=? len then len else a_maxLength a))
  end.

Definition buildIndex (disk : string) (fd : Z) (max : Z) (st : CSVFileParser)
    : result CSVFileParser :=
  if negb (is_open st) then Error StateError
  else match iterator_stream st with
  | None => Error TypeError
  | Some ls =>
      let div := Z.of_nat (String.length (line_divisor st)) in
      let a := index_loop div max ls
                 (mkacc 0 0 (header st) (columns st) (index_pool st) 0) in
      let st1 := {|
        filename := filename st; header := a_header a; index_pool := a_pool a;
        lines := a_lines a; columns := a_columns a; size := a_size a;
        iterator_stream := Some [];
        reading_handle := reading_handle st;
        iterator_object := iterator_object st;
        is_open := is_open st; is_indexed := is_indexed st;
        is_iterator_active := is_iterator_active st;
        reading_buffer := Some (repeat NUL (Z.to_nat (a_maxLength a)));
        line_divisor := line_divisor st |} in
      st2 <- close true st1 ;;
      st3 <- open disk fd st2 ;;
      Ok {|
        filename := filename st3; header := header st3; index_pool := index_pool st3;
        lines := lines st3; columns := columns st3; size := size st3;
        iterator_stream := iterator_stream st3;
        reading_handle := reading_handle st3;
        iterator_object := iterator_object st3;
        is_open := is_open st3; is_indexed := true;
        is_iterator_active := is_iterator_active st3;
        reading_buffer := reading_buffer st3; line_divisor := line_divisor st3 |}
  end.

(** ** [iterator()] and a full pass over it *)

Definition iterator (st : CSVFileParser) : result (CSVFileParser * option gen) :=
  if negb (is_open st) then Error StateError
  else if is_iterator_active st then Ok (st, iterator_object st)
  else
    let g := mkgen (match header st with Some h => HArr h | None => HNull end)
                   0 (iterator_stream st) in
    Ok ({| filename := filename st; header := header st; index_pool := index_pool st;
           lines := lines st; columns := columns st; size := size st;
           iterator_stream := iterator_stream st;
           reading_handle := reading_handle st;
           iterator_object := Some g;
           is_open := is_open st; is_indexed := is_indexed st;
           is_iterator_active := true;
           reading_buffer := reading_buffer st; line_divisor := line_divisor st |},
        Some g).

(** The body of [csvAsyncIteratorWrapper]: the header line is skipped (and
    kept as [header] when none was given); every other line is decoded by
    [scopeLineObjectBuilder], the method [#buildLineObject] detached from its
    object, so called with [this] undefined.  Returns the records yielded and
    the error that ended the pass, if any. *)
Fixpoint gen_loop (hd : hdrarg) (idx : Z) (ls : list string)
    : list CSVObjectLine * option err :=
  match ls with
  | [] => ([], None)
  | l :: rest =>
      let idx' := idx + 1 in
      if idx' =? 1 then
        gen_loop (match hd with HNull => HStr l | _ => hd end) idx' rest
      else
        match buildLineObject None l idx' hd with
        | Ok r => let (rs, e) := gen_loop hd idx' rest in (r :: rs, e)
        | Error e => ([], Some e)
        end
  end.

(** [for await (const row of it)] over the object returned by [iterator()]. *)
Definition iterator_pass (g : option gen) : list CSVObjectLine * option err :=
  match g with
  | None => ([], Some TypeError)
  | Some g =>
      match g_stream g with
      | None => ([], Some TypeError)
      | Some ls => gen_loop (g_header g) (g_index g) ls
      end
  end.

(** ** [getLine(index)] (for a numeric [index]) *)

Definition getLine (disk : string) (st : CSVFileParser) (i : Z)
    : result (CSVFileParser * CSVObjectLine) :=
  if negb (is_open st) then Error StateError
  else if negb (is_indexed st) || (match index_pool st with [] => true | _ => false end)
  then Error StateError
  else if (i =? 0) || (lines st <? i) || (i <=? 0) then Error RangeError
  else match nth_error (index_pool st) (Z.to_nat i) with
  | None => Error TypeError           (* this.#index_pool[index][1] on undefined *)
  | Some (off, len) =>
      if len =? 0 then Error RangeError
      else
        rd <- readAtIndex disk (reading_buffer st) off len ;;
        let st' := {|
          filename := filename st; header := header st; index_pool := index_pool st;
          lines := lines st; columns := columns st; size := size st;
          iterator_stream := iterator_stream st;
          reading_handle := reading_handle st;
          iterator_object := iterator_object st;
          is_open := is_open st; is_indexed := is_indexed st;
          is_iterator_active := is_iterator_active st;
          reading_buffer := fst rd; line_divisor := line_divisor st |} in
        r <- buildLineObject (Some st') (snd rd) i HNull ;;
        Ok (st', r)
  end.

(** The readline interface shared by the engine and a live generator
    delivers [n] lines to the generator. *)
Definition advance_stream (n : nat) (st : CSVFileParser) : CSVFileParser := {|
  filename := filename st; header := header st; index_pool := index_pool st;
  lines := lines st; columns := columns st; size := size st;
  iterator_stream := option_map (skipn n) (iterator_stream st);
  reading_handle := reading_handle st;
  iterator_object := iterator_object st;
  is_open := is_open st; is_indexed := is_indexed st;
  is_iterator_active := is_iterator_active st;
  reading_buffer := reading_buffer st; line_divisor := line_divisor st |}.

(** The Row Record of a [getLine] call, without the engine state. *)
Definition getLine_record (disk : string) (st : CSVFileParser) (i : Z)
    : result CSVObjectLine :=
  match getLine disk st i with Ok (_, r) => Ok r | Error e => Error e end.

(** ** Engine states reachable from the constructor over a file [disk] *)

Inductive reachable (disk : string) : CSVFileParser -> Prop :=
| reach_new : forall fd f op st,
    CSVFileParser_new disk fd f op = Ok st -> reachable disk st
| reach_open : forall fd st st',
    reachable disk st -> open disk fd st = Ok st' -> reachable disk st'
| reach_close : forall p st st',
    reachable disk st -> close p st = Ok st' -> reachable disk st'
| reach_buildIndex : forall fd max st st',
    reachable disk st -> buildIndex disk fd max st = Ok st' -> reachable disk st'
| reach_rewind : forall fd st st',
    reachable disk st -> rewind disk fd st = Ok st' -> reachable disk st'
| reach_iterator : forall st st' g,
    reachable disk st -> iterator st = Ok (st', g) -> reachable disk st'
| reach_iterate : forall n st,
    reachable disk st -> reachable disk (advance_stream n st)
| reach_getLine : forall i st st' r,
    reachable disk st -> getLine disk st i = Ok (st', r) -> reachable disk st'.

(** The invariant of reachable states. *)
Record engine_inv (st : CSVFileParser) : Prop := {
  inv_divisor : line_divisor st = LFs;
  inv_pool : Forall (fun e => 0 < snd e) (index_pool st);
  inv_handle : is_open st = true -> reading_handle st <> None
}.

(** ** Concrete files and engines *)

(** The lines of [ls], each terminated by [d]. *)
Fixpoint join_lines (d : string) (ls : list string) : string :=
  match ls with [] => "" | l :: t => l ++ d ++ join_lines d t end.

(** The example of the spec: header [a,b], rows [1,2], [3,4,5], [6]. *)
Definition disk_spec : string := join_lines LFs ["a,b"; "1,2"; "3,4,5"; "6"].
Definition disk_rows : string := join_lines LFs ["a,b"; "1,2"; "3,4"; "55,66"].
Definition disk_header_only : string := join_lines LFs ["a,b"].
Definition disk_crlf : string := join_lines CRLF ["a,b"; "1,2"; "3,4"].
Definition disk_dup : string := join_lines LFs ["a,a"; "zzzzzz"; ",2"].

(** A file whose last line has no LF. *)
Definition disk_unterminated : string :=
  (join_lines LFs ["h"; "zzzzzzzz"; "1,23456"] ++ "9")%string.

(** [new CSVFileParser('data.csv', { open: true })], with descriptor 3. *)
Definition opened (disk : string) : result CSVFileParser :=
  CSVFileParser_new disk 3 "data.csv" true.

(** ... followed by [await csv.buildIndex({ max })]. *)
Definition indexed (disk : string) (max : Z) : result CSVFileParser :=
  st <- opened disk ;; buildIndex disk 3 max st.

Definition ok_or_fresh (r : result CSVFileParser) : CSVFileParser :=
  match r with Ok st => st | Error _ => fresh_parser "" end.

Definition ix_spec : CSVFileParser := ok_or_fresh (indexed disk_spec (-1)).

(** The column names the decoder uses ([_header]): the [header] option,
    split when it is a string, or else the engine's [#header]. *)
Definition header_used (self : option CSVFileParser) (hd : hdrarg)
    : option (list string) :=
  match hd with
  | HArr a => Some a
  | HStr s => Some (splitCSVLine s)
  | HNull => match self with Some p => header p | None => None end
  end.

(** The data rows of the file: its lines after the header line. *)
Definition totalRows (disk : string) : nat := List.length (readline_lines disk) - 1.

(** Bytes taken by lines ending in a one-byte divisor. *)
Definition sum_len (ls : list string) : Z :=
  fold_right (fun l s => Z.of_nat (String.length l) + 1 + s) 0 ls.

(** ** The accessors of [CSVFileParser] *)

(** [get header()], [get lines()], [get columns()], [get size()]: each
    throws through [#throwMissingIndexingError] unless the engine is
    indexed. *)
Definition get_header (st : CSVFileParser) : result (option (list string)) :=
  if negb (is_indexed st) then Error StateError else Ok (header st).
Definition get_lines (st : CSVFileParser) : result Z :=
  if negb (is_indexed st) then Error StateError else Ok (lines st).
Definition get_columns (st : CSVFileParser) : result Z :=
  if negb (is_indexed st) then Error StateError else Ok (columns st).
Definition get_size (st : CSVFileParser) : result Z :=
  if negb (is_indexed st) then Error StateError else Ok (size st).

(** One public operation on the engine. *)
Inductive step (disk : string) : CSVFileParser -> CSVFileParser -> Prop :=
| step_open : forall fd st st', open disk fd st = Ok st' -> step disk st st'
| step_close : forall p st st', close p st = Ok st' -> step disk st st'
| step_buildIndex : forall fd max st st',
    buildIndex disk fd max st = Ok st' -> step disk st st'
| step_rewind : forall fd st st', rewind disk fd st = Ok st' -> step disk st st'
| step_iterator : forall st st' g, iterator st = Ok (st', g) -> step disk st st'
| step_iterate : forall n st, step disk st (advance_stream n st)
| step_getLine : forall i st st' r,
    getLine disk st i = Ok (st', r) -> step disk st st'.

Inductive steps (disk : string) : CSVFileParser -> CSVFileParser -> Prop :=
| steps_refl : forall st, steps disk st st
| steps_cons : forall st st' st'',
    step disk st st' -> steps disk st' st'' -> steps disk st st''.

(** The engine with [#reading_buffer] replaced by [b]. *)
Definition set_reading_buffer (st : CSVFileParser) (b : option (list ascii))
    : CSVFileParser := {|
  filename := filename st; header := header st; index_pool := index_pool st;
  lines := lines st; columns := columns st; size := size st;
  iterator_stream := iterator_stream st;
  reading_handle := reading_handle st;
  iterator_object := iterator_object st;
  is_open := is_open st; is_indexed := is_indexed st;
  is_iterator_active := is_iterator_active st;
  reading_buffer := b; line_divisor := line_divisor st |}.

(** The decoder's [fields] spelled out, for a header whose names are
    distinct, non-empty and neither [_unnamed] nor [__proto__]: the cells
    past the header, then each of the first [m] columns with its cell. *)
Definition excess_cells (hdr cs : list string) : list (option string) :=
  map (cell_at cs) (seq (List.length hdr) (List.length cs - List.length hdr)).

Definition header_pairs (hdr cs : list string) (m : nat) : list (string * fieldval) :=
  map (fun j => (nth j hdr "", of_cell (cell_at cs j))) (seq 0 m).


(** The Index Table entries of the lines [ls] stored one after the other
    from offset [off], each followed by a one-byte divisor. *)
Fixpoint index_entries (off : Z) (ls : list string) : list (Z * Z) :=
  match ls with
  | [] => []
  | l :: t =>
      (off, Z.of_nat (String.length l) + 1) ::
        index_entries (off + Z.of_nat (String.length l) + 1) t
  end.

(** The length of the longest of the lines [ls] (0 for none). *)
Definition max_length (ls : list string) : Z :=
  fold_right (fun l m => Z.max (Z.of_nat (String.length l)) m) 0 ls.

(** A line holding neither LF nor CR. *)
Definition plain_line (l : string) : bool :=
  forallb (fun c => negb (Ascii.eqb c LF || Ascii.eqb c CR)) (list_ascii_of_string l).

(** A file of ASCII bytes (all below 128).  The code reads the file through
    a UTF-8 decoder and measures lines with [line.length], in UTF-16 code
    units, while [fs.read] addresses bytes; on an ASCII file decoding is
    the identity and one byte is one code unit, which is what [rl_lines],
    [readAtIndex] and [trim] model.  Statements relating lengths, offsets
    and [size] to the bytes of the file assume it. *)
Definition ascii_file (disk : string) : bool :=
  forallb (fun c => (nat_of_ascii c <? 128)%nat) (list_ascii_of_string disk).

(** A property name that is not an array index ("0", "7", "2019", ...):
    it does not start with a decimal digit.  JS enumerates the own keys
    that are array indices first, in ascending numeric order, and the
    other string keys in insertion order; [jsobj] keeps insertion order,
    so an ordered statement about [props] assumes no such key. *)
Definition not_index_key (k : string) : bool :=
  match k with
  | String c _ => negb ((48 <=? nat_of_ascii c)%nat && (nat_of_ascii c <=? 57)%nat)
  | EmptyString => true
  end.

(** ** [ProgressBar] *)

(** The fields of a progress bar.  [update] also writes the bar to standard
    output (and [String.prototype.repeat] may throw there); the fields are
    set before that, and the model keeps the fields only. *)
Record ProgressBar := mkbar {
  str_left : string;
  str_right : string;
  unit_posfix : string;
  total : Z;
  current : Z;
  strtotal : Z;
  ended : bool
}.

(** [new ProgressBar(total, { unit_posfix, str_left, str_right })] with the
    options as given (or defaulted) by the caller. *)
Definition ProgressBar_new (tot : Z) (posfix left right : string) : ProgressBar :=
  mkbar left right posfix tot 0 60 false.

(** [reset()] *)
Definition pb_reset (b : ProgressBar) : ProgressBar :=
  mkbar (str_left b) (str_right b) (unit_posfix b) (total b) 0 (strtotal b) false.

(** [resize(newsize)] *)
Definition pb_resize (b : ProgressBar) (newsize : Z) : ProgressBar :=
  let b1 := pb_reset b in
  mkbar (str_left b1) (str_right b1) (unit_posfix b1) newsize (current b1)
        (strtotal b1) (ended b1).

(** [update(current)]: [this.current++], then [this.current = current] when
    the argument is truthy (a non-zero number; [None] is [undefined]). *)
Definition pb_update (b : ProgressBar) (arg : option Z) : ProgressBar :=
  let c := match arg with
           | Some a => if a =? 0 then current b + 1 else a
           | None => current b + 1
           end in
  mkbar (str_left b) (str_right b) (unit_posfix b) (total b) c (strtotal b) (ended b).

Inductive bar_reachable : ProgressBar -> Prop :=
| bar_new : forall tot posfix left right,
    bar_reachable (ProgressBar_new tot posfix left right)
| bar_update : forall b a, bar_reachable b -> bar_reachable (pb_update b a)
| bar_reset_r : forall b, bar_reachable b -> bar_reachable (pb_reset b)
| bar_resize_r : forall b n, bar_reachable b -> bar_reachable (pb_resize b n).

(** ** Lemmas on the model *)

Lemma index_loop_pool_pos : forall div max ls a,
  0 < div -> Forall (fun e => 0 < snd e) (a_pool a) ->
  Forall (fun e => 0 < snd e) (a_pool (index_loop div max ls a)).
Proof.
  intros div max ls; induction ls as [|l rest IH]; intros a Hd Ha; simpl; auto.
  destruct (a_lines a =? 0); [apply IH; auto|].
  destruct ((0 <=? max) && (max <=? a_lines a)); auto.
  apply IH; auto; simpl.
  apply Forall_app; split; auto.
  constructor; auto; simpl; lia.
Qed.

Ltac inv_ok H := injection H as H; subst.

Lemma reachable_inv : forall disk st, reachable disk st -> engine_inv st.
Proof.
  intros disk st R; induction R as
    [fd f op st H|fd st st' R IH H|p st st' R IH H|fd max st st' R IH H
    |fd st st' R IH H|st st' g R IH H|n st R IH|i st st' r R IH H].
  - unfold CSVFileParser_new in H; destruct op.
    + unfold open in H; simpl in H; inv_ok H.
      constructor; simpl; auto; congruence.
    + inv_ok H; constructor; simpl; auto; discriminate.
  - destruct IH as [D P Hh]; unfold open in H.
    destruct (is_open st); [discriminate|]; inv_ok H.
    constructor; simpl; auto.
    + rewrite D; reflexivity.
    + intros _; destruct (reading_handle st); congruence.
  - destruct IH as [D P Hh]; unfold close in H.
    destruct (is_open st); [|discriminate]; inv_ok H.
    constructor; simpl; auto; discriminate.
  - destruct IH as [D P Hh]; unfold buildIndex in H.
    destruct (is_open st) eqn:Eo; [|discriminate]; simpl in H.
    destruct (iterator_stream st) as [ls|]; [|discriminate].
    unfold close, open in H; simpl in H; inv_ok H.
    constructor; simpl; auto.
    + rewrite D; reflexivity.
    + apply index_loop_pool_pos; auto. rewrite D; simpl; lia.
    + intros _; destruct (reading_handle st); congruence.
  - destruct IH as [D P Hh]; unfold rewind in H.
    destruct (is_open st) eqn:Eo; [|discriminate]; simpl in H.
    unfold close, open in H; rewrite Eo in H; simpl in H; inv_ok H.
    constructor; simpl; auto.
    + rewrite D; reflexivity.
    + intros _; destruct (reading_handle st); congruence.
  - destruct IH as [D P Hh]; unfold iterator in H.
    destruct (is_open st) eqn:Eo; [|discriminate]; simpl in H.
    destruct (is_iterator_active st); inv_ok H; [constructor; auto|].
    constructor; simpl; auto.
  - destruct IH as [D P Hh]; constructor; simpl; auto.
  - destruct IH as [D P Hh]; unfold getLine in H.
    destruct (is_open st) eqn:Eo; [|discriminate]; simpl in H.
    destruct (negb (is_indexed st) || match index_pool st with [] => true | _ => false end);
      [discriminate|].
    destruct ((i =? 0) || (lines st <? i) || (i <=? 0)); [discriminate|].
    destruct (nth_error (index_pool st) (Z.to_nat i)) as [[off len]|]; [|discriminate].
    destruct (len =? 0); [discriminate|].
    destruct (readAtIndex disk (reading_buffer st) off len) as [rd|]; [|discriminate].
    simpl in H.
    destruct (buildLineObject _ _ _ _) as [r'|]; [|discriminate]; simpl in H.
    inv_ok H; constructor; simpl; auto.
Qed.

Lemma excess_fold_err : forall hdr cs ns acc e,
  (forall e', acc = Error e' -> e' = TypeError) ->
  fold_left (excess_step hdr cs) ns acc = Error e -> e = TypeError.
Proof.
  intros hdr cs ns; induction ns as [|n ns IH]; intros acc e Hacc H; simpl in H.
  - apply Hacc; exact H.
  - refine (IH _ _ _ H); intros e' He'.
    destruct acc as [o|e0]; simpl in He'; [|injection He' as <-; apply Hacc; reflexivity].
    destruct (nth_error hdr n) as [col|].
    + destruct (String.eqb col "").
      * unfold push_unnamed in He'; destruct (obj_get o "_unnamed") as [|[]|];
          try discriminate; injection He' as <-; reflexivity.
      * discriminate.
    + unfold push_unnamed in He'; destruct (obj_get o "_unnamed") as [|[]|];
        try discriminate; injection He' as <-; reflexivity.
Qed.

(** The decoder only ever fails with a TypeError. *)
Lemma buildLineObject_err : forall self l i hd e,
  buildLineObject self l i hd = Error e -> e = TypeError.
Proof.
  intros self l i hd e H; unfold buildLineObject in H.
  destruct hd as [|s|a], self as [p|]; simpl in H;
    try (injection H as <-; reflexivity);
    try (destruct (header p) as [hdr|]; simpl in H; [|injection H as <-; reflexivity]);
    match goal with
    | H : (if ?c then _ else _) = _ |- _ =>
        destruct c; [|discriminate];
        destruct (excess_fields _ _ _) eqn:E; simpl in H; [discriminate|];
        injection H as <-; eapply excess_fold_err; [|exact E];
        intros e' He'; discriminate
    end.
Qed.

(** The decoder reads no part of its receiver other than [#header]. *)
Lemma buildLineObject_self_header : forall p q l i hd,
  header p = header q ->
  buildLineObject (Some p) l i hd = buildLineObject (Some q) l i hd.
Proof. intros p q l i hd H; unfold buildLineObject; rewrite H; reflexivity. Qed.

Lemma readAtIndex_err : forall disk rb off len e,
  readAtIndex disk rb off len = Error e -> e = IOError.
Proof.
  intros disk rb off len e H; unfold readAtIndex in H.
  destruct (Nat.eqb _ 0); [discriminate|].
  destruct (Nat.eqb _ 0); [injection H as <-; reflexivity|].
  destruct (Nat.ltb _ _); [injection H as <-; reflexivity|discriminate].
Qed.

(** [getLine] reads [is_open], [is_indexed], [#index_pool], [#lines],
    [#reading_buffer] and [#header] of the engine, nothing else. *)
Lemma getLine_record_view : forall disk st1 st2 i,
  is_open st1 = is_open st2 -> is_indexed st1 = is_indexed st2 ->
  index_pool st1 = index_pool st2 -> lines st1 = lines st2 ->
  reading_buffer st1 = reading_buffer st2 -> header st1 = header st2 ->
  getLine_record disk st1 i = getLine_record disk st2 i.
Proof.
  intros disk st1 st2 i Ho Hi Hp Hl Hb Hh; unfold getLine_record, getLine.
  rewrite Ho, Hi, Hp, Hl, Hb.
  destruct (negb (is_open st2)); [reflexivity|].
  destruct (_ || _); [reflexivity|].
  destruct (_ || _ || _); [reflexivity|].
  destruct (nth_error (index_pool st2) (Z.to_nat i)) as [[off len]|]; [|reflexivity].
  destruct (len =? 0); [reflexivity|].
  destruct (readAtIndex disk (reading_buffer st2) off len) as [rd|]; [|reflexivity].
  simpl.
  match goal with |- ?L = _ => match L with
    context [buildLineObject (Some ?p) ?l ?j ?h] =>
      rewrite (buildLineObject_self_header p st2 l j h) by (simpl; exact Hh) end end.
  match goal with |- _ = ?R => match R with
    context [buildLineObject (Some ?p) ?l ?j ?h] =>
      rewrite (buildLineObject_self_header p st2 l j h) by reflexivity end end.
  destruct (buildLineObject (Some st2) _ _ _); reflexivity.
Qed.

(** ** Error behaviour of [getLine] *)

Lemma ix_spec_reachable : reachable disk_spec ix_spec.
Proof.
  apply (reach_buildIndex disk_spec 3 (-1) (ok_or_fresh (opened disk_spec))).
  - apply (reach_new disk_spec 3 "data.csv" true); reflexivity.
  - vm_compute; reflexivity.
Qed.

(** Claim C3 (as amended): before [buildIndex], or when the Index Table is
    empty, [getLine] fails with StateError; on an open engine with a
    non-empty Index Table, [getLine(i)] for an integer [i] fails with
    RangeError exactly when [i <= 0] or [i > lines]. *)
Theorem getLine_errors : forall disk st i,
  reachable disk st ->
  ((is_indexed st = false \/ index_pool st = []) ->
     getLine disk st i = Error StateError) /\
  (is_open st = true -> is_indexed st = true -> index_pool st <> [] ->
     (err_of (getLine disk st i) = Some RangeError <-> i <= 0 \/ lines st < i)).
Proof.
  intros disk st i R; destruct (reachable_inv disk st R) as [_ Hpos _].
  split.
  - intros Hst; unfold getLine.
    destruct (is_open st); [simpl|reflexivity].
    destruct Hst as [-> | ->]; [reflexivity|].
    rewrite orb_true_r; reflexivity.
  - intros Ho Hi Hp; unfold getLine; rewrite Ho, Hi; simpl.
    destruct (index_pool st) as [|e es] eqn:Ep; [congruence|]; simpl.
    rewrite <- Ep in *.
    destruct ((i =? 0) || (lines st <? i) || (i <=? 0)) eqn:Ec.
    + simpl; split; [intros _|reflexivity].
      apply orb_true_iff in Ec; destruct Ec as [Ec|Ec]; [apply orb_true_iff in Ec;
        destruct Ec as [Ec|Ec]|]; [apply Z.eqb_eq in Ec|apply Z.ltb_lt in Ec
        |apply Z.leb_le in Ec]; lia.
    + apply orb_false_iff in Ec; destruct Ec as [Ec E3];
        apply orb_false_iff in Ec; destruct Ec as [E1 E2].
      apply Z.leb_gt in E3; apply Z.ltb_ge in E2.
      split; [|lia]; intros H.
      destruct (nth_error (index_pool st) (Z.to_nat i)) as [[off len]|] eqn:En;
        [|discriminate].
      assert (Hl : 0 < len).
      { apply nth_error_In in En; rewrite Forall_forall in Hpos;
          exact (Hpos _ En). }
      destruct (len =? 0) eqn:El; [apply Z.eqb_eq in El; lia|].
      destruct (readAtIndex disk (reading_buffer st) off len) as [rd|e'] eqn:Er;
        simpl in H.
      * destruct (buildLineObject _ _ _ _) as [r|e'] eqn:Eb; simpl in H;
          [discriminate|].
        apply buildLineObject_err in Eb; injection H as ->; discriminate.
      * apply readAtIndex_err in Er; injection H as ->; discriminate.
Qed.

Lemma getLine_errors_witness :
  reachable disk_spec ix_spec /\ is_open ix_spec = true /\
  is_indexed ix_spec = true /\ index_pool ix_spec <> [] /\
  err_of (getLine disk_spec ix_spec 0) = Some RangeError.
Proof.
  pose proof ix_spec_reachable as R.
  split; [exact R|].
  split; [vm_compute; reflexivity|].
  split; [vm_compute; reflexivity|].
  split; [vm_compute; discriminate|].
  apply (proj2 (proj2 (getLine_errors disk_spec ix_spec 0 R) eq_refl eq_refl
    ltac:(vm_compute; discriminate))).
  left; lia.
Defined.

(** Claim C3 fails as stated: on the header-only file [a,b], an open,
    indexed engine answers [getLine(0)] with StateError (the Index Table is
    empty), not RangeError. *)
Lemma getLine_zero_header_only :
  match indexed disk_header_only (-1) with
  | Ok ix => is_open ix = true /\ is_indexed ix = true /\ lines ix = 1 /\
             getLine disk_header_only ix 0 = Error StateError
  | Error _ => False
  end.
Proof. vm_compute; auto. Qed.

(** ** The frame of [rewind] *)

(** Claim C10: on an open, indexed engine, [rewind()] succeeds and keeps the
    file name, the indexed flag, header, lines, columns, size, the Index
    Table, the positioned-read descriptor and the read buffer; every
    [getLine(i)] answers the same after it as before it. *)
Theorem rewind_frame : forall disk fd st,
  reachable disk st -> is_open st = true -> is_indexed st = true ->
  exists st', rewind disk fd st = Ok st' /\
    filename st' = filename st /\ is_indexed st' = is_indexed st /\
    header st' = header st /\ lines st' = lines st /\
    columns st' = columns st /\ size st' = size st /\
    index_pool st' = index_pool st /\ reading_handle st' = reading_handle st /\
    reading_buffer st' = reading_buffer st /\ is_open st' = true /\
    (forall i, getLine_record disk st' i = getLine_record disk st i).
Proof.
  intros disk fd st R Ho Hi.
  destruct (reachable_inv disk st R) as [Hd _ Hh].
  specialize (Hh Ho).
  unfold rewind, close, open; rewrite Ho; simpl.
  eexists; split; [reflexivity|]; simpl.
  destruct (reading_handle st) as [h|] eqn:Eh; [|congruence].
  repeat split; auto.
  intros i; apply getLine_record_view; simpl; auto.
Qed.

Lemma rewind_frame_witness :
  exists st', rewind disk_spec 3 ix_spec = Ok st' /\ lines st' = lines ix_spec /\
    (forall i, getLine_record disk_spec st' i = getLine_record disk_spec ix_spec i).
Proof.
  pose proof ix_spec_reachable as R.
  destruct (rewind_frame disk_spec 3 ix_spec R ltac:(vm_compute; reflexivity)
              ltac:(vm_compute; reflexivity))
    as (st' & E & _ & _ & _ & Hl & _ & _ & _ & _ & _ & _ & Hg).
  exists st'; split; [exact E|split; [exact Hl|exact Hg]].
Defined.

(** ** Keys of the [fields] object *)

Section Folds.
Context {A B : Type} (f : A -> B -> A) (P : A -> Prop).

Lemma fold_left_preserve : forall l a,
  P a -> (forall a b, In b l -> P a -> P (f a b)) -> P (fold_left f l a).
Proof.
  induction l as [|b l IH]; intros a Ha Hs; simpl; auto.
  apply IH; [apply Hs; simpl; auto|intros; apply Hs; simpl; auto].
Qed.

End Folds.

Lemma lookup_update_same : forall k v l, lookup k (update k v l) = Some v.
Proof.
  intros k v l; induction l as [|[k' v'] t IH]; simpl.
  - rewrite String.eqb_refl; reflexivity.
  - destruct (String.eqb k k') eqn:E; simpl; [rewrite String.eqb_refl; reflexivity|].
    rewrite E; exact IH.
Qed.




Lemma assign_is_set : forall o col c, exists v, assign o col c = obj_set o col v.
Proof.
  intros o col c; unfold assign.
  destruct (obj_get o col) as [|[]|]; eexists; reflexivity.
Qed.








(** ** [hasMissingCells] *)

Lemma buildLineObject_missing : forall self l i hd r,
  buildLineObject self l i hd = Ok r -> hasMissingCells r = false.
Proof.
  intros self l i hd r H; unfold buildLineObject in H.
  destruct hd as [|s|a], self as [p|]; simpl in H; try discriminate;
    try (destruct (header p); simpl in H; [|discriminate]);
    (destruct (_ <? _)%nat;
      [destruct (excess_fields _ _ _); simpl in H; [|discriminate]|]);
    injection H as <-; reflexivity.
Qed.

Lemma gen_loop_missing : forall ls hd idx r,
  In r (fst (gen_loop hd idx ls)) -> hasMissingCells r = false.
Proof.
  induction ls as [|l rest IH]; intros hd idx r H; simpl in H; [contradiction|].
  destruct (idx + 1 =? 1); [eapply IH; exact H|].
  destruct (buildLineObject None l (idx + 1) hd) as [r'|e] eqn:E; [|contradiction].
  destruct (gen_loop hd (idx + 1) rest) as [rs e] eqn:Eg; simpl in H.
  destruct H as [<-|H]; [eapply buildLineObject_missing; exact E|].
  eapply IH; rewrite Eg; exact H.
Qed.

(** Claim C9: [hasMissingCells] is [false] on every record the decoder
    produces, whether through [getLine] or through the iterator. *)
Theorem hasMissingCells_never_set :
  (forall self l i hd r, buildLineObject self l i hd = Ok r ->
     hasMissingCells r = false) /\
  (forall disk st i st' r, getLine disk st i = Ok (st', r) ->
     hasMissingCells r = false) /\
  (forall g r, In r (fst (iterator_pass g)) -> hasMissingCells r = false).
Proof.
  split; [exact buildLineObject_missing|split].
  - intros disk st i st' r H; unfold getLine in H.
    destruct (negb (is_open st)); [discriminate|].
    destruct (_ || _); [discriminate|].
    destruct (_ || _ || _); [discriminate|].
    destruct (nth_error _ _) as [[off len]|]; [|discriminate].
    destruct (len =? 0); [discriminate|].
    destruct (readAtIndex _ _ _ _) as [rd|]; simpl in H; [|discriminate].
    destruct (buildLineObject _ _ _ _) as [r'|] eqn:E; simpl in H; [|discriminate].
    injection H as _ <-; eapply buildLineObject_missing; exact E.
  - intros [g|] r H; simpl in H; [|contradiction].
    destruct (g_stream g); simpl in H; [|contradiction].
    eapply gen_loop_missing; exact H.
Qed.

Lemma hasMissingCells_never_set_witness :
  exists r, buildLineObject (Some ix_spec) "6" 3 HNull = Ok r /\
    (List.length (cells r) < 2)%nat /\ hasMissingCells r = false.
Proof.
  destruct (buildLineObject (Some ix_spec) "6" 3 HNull) as [r|e] eqn:E;
    [|vm_compute in E; discriminate].
  exists r; split; [reflexivity|split].
  - vm_compute in E; injection E as <-; simpl; lia.
  - exact (proj1 hasMissingCells_never_set _ _ _ _ _ E).
Defined.

(** ** [buildIndex] with a cap *)

Lemma index_loop_cap : forall m ls a,
  1 <= a_lines a -> (m <= List.length ls)%nat ->
  let a' := index_loop 1 (a_lines a + Z.of_nat m) ls a in
  a_lines a' = a_lines a + Z.of_nat m /\
  a_size a' = a_size a + sum_len (firstn m ls) /\
  List.length (a_pool a') = (List.length (a_pool a) + m)%nat.
Proof.
  induction m as [|m IH]; intros ls a H1 Hm; simpl.
  - destruct ls as [|l rest]; simpl; [lia|].
    destruct (a_lines a =? 0) eqn:E0; [apply Z.eqb_eq in E0; lia|].
    rewrite Z.add_0_r.
    replace ((0 <=? a_lines a) && (a_lines a <=? a_lines a)) with true
      by (symmetry; apply andb_true_iff; split; apply Z.leb_le; lia).
    repeat split; lia.
  - destruct ls as [|l rest]; simpl in Hm; [lia|].
    simpl.
    destruct (a_lines a =? 0) eqn:E0; [apply Z.eqb_eq in E0; lia|].
    replace ((0 <=? a_lines a + Z.pos (Pos.of_succ_nat m)) &&
             (a_lines a + Z.pos (Pos.of_succ_nat m) <=? a_lines a)) with false
      by (symmetry; apply andb_false_iff; right; apply Z.leb_gt; lia).
    match goal with |- context [index_loop 1 _ rest ?b] => set (a1 := b) end.
    replace (a_lines a + Z.pos (Pos.of_succ_nat m)) with (a_lines a1 + Z.of_nat m)
      by (simpl; lia).
    destruct (IH rest a1) as (L & Sz & P); [simpl; lia|lia|].
    rewrite L, Sz, P; simpl.
    rewrite length_app; simpl.
    repeat split; lia.
Qed.

Lemma opened_state : forall disk fd fname st,
  CSVFileParser_new disk fd fname true = Ok st ->
  is_open st = true /\ iterator_stream st = Some (readline_lines disk) /\
  line_divisor st = LFs /\ index_pool st = [] /\ header st = None /\ columns st = 0.
Proof.
  intros disk fd fname st H; unfold CSVFileParser_new, open in H; simpl in H.
  injection H as <-; repeat split.
Qed.

(* [buildIndex({max: k})] on a freshly opened engine, in terms of the lines
   delivered by readline. *)
Lemma buildIndex_cap_core : forall disk fd fname k st ix,
  CSVFileParser_new disk fd fname true = Ok st ->
  buildIndex disk fd k st = Ok ix ->
  (1 <= k -> k < Z.of_nat (totalRows disk) ->
     lines ix = k /\ size ix = sum_len (firstn (Z.to_nat k) (readline_lines disk))) /\
  (2 <= k -> k < Z.of_nat (totalRows disk) ->
     getLine disk ix (k + 1) = Error RangeError) /\
  (k = 0 -> index_pool ix = [] /\ forall i, getLine disk ix i = Error StateError).
Proof.
  intros disk fd fname k st ix Hn Hb.
  destruct (opened_state disk fd fname st Hn) as (Ho & Hs & Hd & Hp & _ & _).
  unfold buildIndex in Hb; rewrite Ho, Hs, Hd, Hp in Hb; simpl in Hb.
  unfold close, open in Hb; simpl in Hb.
  injection Hb as <-.
  unfold totalRows.
  destruct (readline_lines disk) as [|h rest] eqn:Erl.
  { simpl; split; [intros; lia|split; [intros; lia|]].
    intros ->; split; [reflexivity|intros i; reflexivity]. }
  simpl.
  match goal with |- context [index_loop 1 k rest ?a] => set (a1 := a) end.
  split; [|split].
  - intros Hk1 Hk2; rewrite Nat.sub_0_r in Hk2.
    pose proof (Z2Nat.id k ltac:(lia)) as Ek.
    destruct (index_loop_cap (Z.to_nat k - 1) rest a1) as (L & Sz & _);
      [unfold a1; cbn [a_lines]; lia|lia|].
    replace (a_lines a1 + Z.of_nat (Z.to_nat k - 1)) with k in L, Sz by (unfold a1; cbn [a_lines]; lia).
    rewrite L, Sz; split; [simpl; lia|].
    replace (Z.to_nat k) with (S (Z.to_nat k - 1)) by lia.
    unfold a1; cbn [a_size firstn sum_len fold_right].
    replace (S (Z.to_nat k - 1) - 1)%nat with (Z.to_nat k - 1)%nat by lia.
    reflexivity.
  - intros Hk1 Hk2; rewrite Nat.sub_0_r in Hk2.
    pose proof (Z2Nat.id k ltac:(lia)) as Ek.
    destruct (index_loop_cap (Z.to_nat k - 1) rest a1) as (L & _ & P);
      [unfold a1; cbn [a_lines]; lia|lia|].
    replace (a_lines a1 + Z.of_nat (Z.to_nat k - 1)) with k in L, P by (unfold a1; cbn [a_lines]; lia).
    unfold getLine; simpl.
    destruct (a_pool (index_loop 1 k rest a1)) as [|e es] eqn:Ep;
      [simpl in P; lia|].
    rewrite L.
    replace (k + 1 =? 0) with false by (symmetry; apply Z.eqb_neq; lia).
    replace (k <? k + 1) with true by (symmetry; apply Z.ltb_lt; lia).
    reflexivity.
  - intros ->.
    assert (E : a_pool (index_loop 1 0 rest a1) = []).
    { destruct rest; reflexivity. }
    split; [exact E|intros i; unfold getLine; simpl; rewrite E; reflexivity].
Qed.

(** Claim C5 fails as stated: with [k = 0] on the example file (3 data
    rows), [lines] is 1 and [getLine(1)] fails with StateError, not
    RangeError. *)
Lemma buildIndex_max_zero :
  match indexed disk_spec 0 with
  | Ok ix => totalRows disk_spec = 3%nat /\ lines ix = 1 /\
             getLine disk_spec ix 1 = Error StateError
  | Error _ => False
  end.
Proof. vm_compute; auto. Qed.

(** ** Concrete runs on which the code departs from the spec *)

Lemma buildLineObject_unbound : forall l i hd,
  buildLineObject None l i hd = Error TypeError.
Proof. intros l i [|s|a]; reflexivity. Qed.

(** With the header line read, every further line reaches the unbound
    decoder, so a pass ends in a TypeError before yielding anything. *)
Lemma gen_loop_unbound : forall hd l1 l2 rest,
  gen_loop hd 0 (l1 :: l2 :: rest) = ([], Some TypeError).
Proof.
  intros hd l1 l2 rest; simpl; rewrite buildLineObject_unbound; reflexivity.
Qed.

Lemma iterator_pass_after_index : forall disk fd fname max st ix ix' g,
  CSVFileParser_new disk fd fname true = Ok st ->
  buildIndex disk fd max st = Ok ix ->
  iterator ix = Ok (ix', g) ->
  (2 <= List.length (readline_lines disk))%nat ->
  iterator_pass g = ([], Some TypeError).
Proof.
  intros disk fd fname max st ix ix' g Hn Hb Hi Hl.
  unfold CSVFileParser_new, open in Hn; simpl in Hn; injection Hn as <-.
  unfold buildIndex, close, open in Hb; simpl in Hb; injection Hb as <-.
  unfold iterator in Hi; simpl in Hi; injection Hi as _ <-; simpl.
  destruct (readline_lines disk) as [|l1 [|l2 rest]]; simpl in Hl; try lia.
  apply gen_loop_unbound.
Qed.

(** Claim C1 on the file [a,b / 1,2 / 3,4 / 55,66], fully indexed:
    [getLine(1)] returns the record of index 1 for the second data row
    [3,4], while a full [iterator()] pass yields no record at all and ends
    in a TypeError. *)
Theorem cross_path_disagree :
  match indexed disk_rows (-1) with
  | Ok ix =>
      match getLine_record disk_rows ix 1 with
      | Ok r => index r = 1 /\ line r = "3,4"
      | Error _ => False
      end /\
      match iterator ix with
      | Ok (_, g) => iterator_pass g = ([], Some TypeError)
      | Error _ => False
      end
  | Error _ => False
  end.
Proof. vm_compute; auto. Qed.

(** Claim C2 on the example of the spec: [columns] is 2 but [lines] is 4;
    the Index Table holds the three data rows at positions 0..2, so
    [getLine(1)] addresses [3,4,5] and fails in the positioned read (the
    shared buffer has the length of the longest row, without its divisor),
    [getLine(2)] is row [6], [getLine(3)] fails with a TypeError; the
    decoder itself gives the fields the spec lists. *)
Theorem spec_example_run :
  match indexed disk_spec (-1) with
  | Ok ix =>
      columns ix = 2 /\ lines ix = 4 /\
      index_pool ix = [(4, 4); (8, 6); (14, 2)] /\
      getLine_record disk_spec ix 1 = Error IOError /\
      option_map (fun r => (line r, props (fields r)))
        (match getLine_record disk_spec ix 2 with Ok r => Some r | _ => None end)
        = Some ("6", [("_unnamed", FArr []); ("a", FStr "6"); ("b", FNull)]) /\
      getLine_record disk_spec ix 3 = Error TypeError /\
      option_map (fun r => props (fields r))
        (match buildLineObject (Some ix) "1,2" 1 HNull with Ok r => Some r | _ => None end)
        = Some [("_unnamed", FArr []); ("a", FStr "1"); ("b", FStr "2")] /\
      option_map (fun r => (hasExcessCells r, props (fields r)))
        (match buildLineObject (Some ix) "3,4,5" 2 HNull with Ok r => Some r | _ => None end)
        = Some (true, [("_unnamed", FArr [Some "5"]); ("a", FStr "3"); ("b", FStr "4")])
  | Error _ => False
  end.
Proof. vm_compute; repeat split. Qed.

(** Claim C4 on the example of the spec: after indexing, [lines] is 4 but
    the Index Table has 3 entries, at 0-based positions; a second
    [buildIndex] appends the same entries again, so the offsets are no
    longer increasing. *)
Theorem index_table_size :
  match indexed disk_spec (-1) with
  | Ok ix =>
      lines ix = 4 /\ List.length (index_pool ix) = 3%nat /\
      match buildIndex disk_spec 3 (-1) ix with
      | Ok ix2 =>
          lines ix2 = 4 /\
          index_pool ix2 = [(4, 4); (8, 6); (14, 2); (4, 4); (8, 6); (14, 2)]
      | Error _ => False
      end
  | Error _ => False
  end.
Proof. vm_compute; repeat split. Qed.

(** Claim C6 on the CR LF file [a,b / 1,2 / 3,4]: the sniffing of [open()]
    would find CR LF, but the constructor has already set [#line_divisor]
    to LF, so the engine keeps LF and the Index Table records rows of 4
    bytes at offsets 4 and 8, where the rows take 5 bytes at offsets 5
    and 10. *)
Theorem crlf_divisor_kept :
  sniff_divisor disk_crlf = CRLF /\
  match opened disk_crlf with
  | Ok st => line_divisor st = LFs
  | Error _ => False
  end /\
  match indexed disk_crlf (-1) with
  | Ok ix => line_divisor ix = LFs /\ index_pool ix = [(4, 4); (8, 4)]
  | Error _ => False
  end.
Proof. vm_compute; repeat split. Qed.

(** Claim C7 on the file [a,a / zzzzzz / ,2]: [getLine(1)] decodes [,2];
    the first assignment to [a] is [null], the second overwrites it, so
    [a] holds ["2"] instead of [[null, "2"]]. *)
Theorem duplicate_after_null :
  match indexed disk_dup (-1) with
  | Ok ix =>
      match getLine_record disk_dup ix 1 with
      | Ok r => line r = ",2" /\ lookup "a" (props (fields r)) = Some (FStr "2")
      | Error _ => False
      end
  | Error _ => False
  end.
Proof. vm_compute; auto. Qed.

(** * Further properties of the code *)

(** ** Helpers *)

Lemma buildIndex_ok : forall disk fd max st st',
  buildIndex disk fd max st = Ok st' ->
  exists ls, is_open st = true /\ iterator_stream st = Some ls /\
  let a := index_loop (Z.of_nat (String.length (line_divisor st))) max ls
             (mkacc 0 0 (header st) (columns st) (index_pool st) 0) in
  st' = {|
    filename := filename st; header := a_header a; index_pool := a_pool a;
    lines := a_lines a; columns := a_columns a; size := a_size a;
    iterator_stream := Some (readline_lines disk);
    reading_handle := match reading_handle st with
                      | Some h => Some h
                      | None => Some fd
                      end;
    iterator_object := iterator_object st;
    is_open := true; is_indexed := true;
    is_iterator_active := is_iterator_active st;
    reading_buffer := Some (repeat NUL (Z.to_nat (a_maxLength a)));
    line_divisor := if String.eqb (line_divisor st) "" then sniff_divisor disk
                    else line_divisor st |}.
Proof.
  intros disk fd max st st' H; unfold buildIndex in H.
  destruct (is_open st) eqn:Eo; [|discriminate]; simpl in H.
  destruct (iterator_stream st) as [ls|]; [|discriminate].
  unfold close, open in H; simpl in H; inv_ok H.
  exists ls; repeat split.
Qed.

Lemma readAtIndex_buffer : forall disk rb off len rb' s,
  readAtIndex disk rb off len = Ok (rb', s) ->
  option_map (@List.length ascii) rb' = option_map (@List.length ascii) rb.
Proof.
  intros disk rb off len rb' s H; unfold readAtIndex in H.
  destruct (Nat.eqb _ 0); [injection H as <- _; reflexivity|].
  destruct (Nat.eqb _ 0) eqn:E0; [discriminate|].
  destruct (Nat.ltb _ _) eqn:E1; [discriminate|].
  apply Nat.ltb_ge in E1.
  destruct rb as [b|]; injection H as <- _; [|reflexivity].
  simpl; f_equal.
  rewrite length_app, length_skipn.
  assert (List.length (firstn (Z.to_nat len) (skipn (Z.to_nat off)
            (list_ascii_of_string disk))) <= List.length b)%nat
    by (rewrite length_firstn; lia).
  lia.
Qed.

Lemma getLine_shape : forall disk st i st' r,
  getLine disk st i = Ok (st', r) ->
  is_open st = true /\ is_indexed st = true /\
  st' = set_reading_buffer st (reading_buffer st') /\
  option_map (@List.length ascii) (reading_buffer st') =
    option_map (@List.length ascii) (reading_buffer st).
Proof.
  intros disk st i st' r H; unfold getLine in H.
  destruct (is_open st) eqn:Eo; [|discriminate]; simpl in H.
  destruct (is_indexed st) eqn:Ei; simpl in H; [|discriminate].
  destruct (match index_pool st with [] => true | _ => false end); [discriminate|].
  destruct ((i =? 0) || (lines st <? i) || (i <=? 0)); [discriminate|].
  destruct (nth_error (index_pool st) (Z.to_nat i)) as [[off len]|]; [|discriminate].
  destruct (len =? 0); [discriminate|].
  destruct (readAtIndex disk (reading_buffer st) off len) as [[rb s]|] eqn:Er;
    [|discriminate].
  simpl in H.
  destruct (buildLineObject _ _ _ _) as [r'|]; [|discriminate]; simpl in H.
  inv_ok H; simpl; repeat split; auto.
  - unfold set_reading_buffer; simpl; rewrite Eo, Ei; reflexivity.
  - eapply readAtIndex_buffer; exact Er.
Qed.

(** What one operation does to the indexed flag and to the generator. *)
Lemma step_frame : forall disk st st', step disk st st' ->
  (is_indexed st = true -> is_indexed st' = true) /\
  (is_indexed st' = true -> is_indexed st = true \/
     exists fd max, buildIndex disk fd max st = Ok st') /\
  (is_iterator_active st = true ->
     is_iterator_active st' = true /\ iterator_object st' = iterator_object st).
Proof.
  intros disk st st' S; destruct S as
    [fd st st' H|p st st' H|fd max st st' H|fd st st' H|st st' g H|n st
    |i st st' r H].
  - unfold open in H; destruct (is_open st); [discriminate|]; inv_ok H; simpl; auto.
  - unfold close in H; destruct (is_open st); [|discriminate]; inv_ok H; simpl; auto.
  - pose proof H as H0.
    apply buildIndex_ok in H as (ls & _ & _ & ->); simpl.
    split; [auto|split; [eauto|auto]].
  - unfold rewind in H; destruct (is_open st) eqn:Eo; [|discriminate]; simpl in H.
    unfold close, open in H; rewrite Eo in H; simpl in H; inv_ok H; simpl; auto.
  - unfold iterator in H; destruct (is_open st); [|discriminate]; simpl in H.
    destruct (is_iterator_active st) eqn:Ea; inv_ok H; simpl; auto.
    repeat split; auto; discriminate.
  - simpl; auto.
  - apply getLine_shape in H as (_ & _ & -> & _); unfold set_reading_buffer; simpl; auto.
Qed.

Lemma steps_indexed : forall disk st st',
  steps disk st st' -> is_indexed st = true -> is_indexed st' = true.
Proof.
  intros disk st st' S; induction S as [st|st st' st'' S1 S2 IH]; auto.
  intros H; apply IH; apply (step_frame disk st st' S1); exact H.
Qed.

Lemma steps_generator : forall disk st st',
  steps disk st st' -> is_iterator_active st = true ->
  is_iterator_active st' = true /\ iterator_object st' = iterator_object st.
Proof.
  intros disk st st' S; induction S as [st|st st' st'' S1 S2 IH]; auto.
  intros H; destruct (step_frame disk st st' S1) as (_ & _ & G).
  destruct (G H) as [A O]; destruct (IH A) as [A' O']; split; congruence.
Qed.

Lemma index_loop_pool_prefix : forall div max ls a,
  exists new, a_pool (index_loop div max ls a) = (a_pool a ++ new)%list.
Proof.
  intros div max ls; induction ls as [|l rest IH]; intros a; simpl.
  - exists []; rewrite app_nil_r; reflexivity.
  - destruct (a_lines a =? 0).
    + destruct (IH (mkacc (a_lines a + 1)
        (a_size a + Z.of_nat (String.length l) + div)
        (Some (splitCSVLine l)) (Z.of_nat (List.length (splitCSVLine l)))
        (a_pool a) (a_maxLength a))) as [nw E]; exists nw; exact E.
    + destruct ((0 <=? max) && (max <=? a_lines a)).
      * exists []; rewrite app_nil_r; reflexivity.
      * match goal with |- context [index_loop div max rest ?b] =>
          destruct (IH b) as [nw E] end.
        rewrite E; simpl; rewrite <- app_assoc; eexists; reflexivity.
Qed.

Lemma gen_loop_no_record : forall hd idx ls, fst (gen_loop hd idx ls) = [].
Proof.
  intros hd idx ls; revert hd idx; induction ls as [|l rest IH]; intros hd idx;
    simpl; auto.
  destruct (idx + 1 =? 1); auto.
  rewrite buildLineObject_unbound; reflexivity.
Qed.

Lemma splitCSVLine_nonempty : forall s, splitCSVLine s <> [].
Proof.
  intros [|c t]; simpl; [discriminate|].
  destruct (Ascii.eqb c COMMA); [discriminate|].
  destruct (splitCSVLine t); discriminate.
Qed.

(** ** [ProgressBar] *)

(** No method of [ProgressBar] ever sets [ended]: it is [false] in every
    state a bar can reach, so the loop of the class's own example, which
    clears its interval once [progress.ended] holds, never stops. *)
Theorem bar_never_ended : forall b, bar_reachable b -> ended b = false.
Proof. intros b R; induction R; simpl; auto. Qed.

Lemma bar_never_ended_witness :
  ended (pb_update (pb_update (ProgressBar_new 2 "" "#" " ") None) (Some 2)) = false.
Proof.
  apply bar_never_ended.
  apply bar_update, bar_update, bar_new.
Defined.

(** ** [#splitCSVLine] *)

(** [line.split(',')] is undone by joining with [","]; it gives one piece
    more than the line has commas, and no piece holds a comma. *)
Theorem splitCSVLine_roundtrip : forall s,
  String.concat "," (splitCSVLine s) = s /\
  List.length (splitCSVLine s) =
    S (List.length (filter (fun c => Ascii.eqb c COMMA) (list_ascii_of_string s))) /\
  Forall (fun p => forallb (fun c => negb (Ascii.eqb c COMMA))
                     (list_ascii_of_string p) = true) (splitCSVLine s).
Proof.
  induction s as [|c t IH]; simpl.
  - repeat split; repeat constructor.
  - destruct IH as (J & L & F).
    destruct (Ascii.eqb c COMMA) eqn:Ec.
    + apply Ascii.eqb_eq in Ec; subst c.
      destruct (splitCSVLine t) as [|h r] eqn:Es;
        [exfalso; apply (splitCSVLine_nonempty t Es)|].
      simpl; repeat split.
      * transitivity (String "," (String.concat "," (h :: r)));
          [destruct r; reflexivity|rewrite J; reflexivity].
      * simpl in L; lia.
      * constructor; [reflexivity|exact F].
    + destruct (splitCSVLine t) as [|h r] eqn:Es;
        [exfalso; apply (splitCSVLine_nonempty t Es)|].
      repeat split.
      * destruct r; simpl in J |- *; rewrite J; reflexivity.
      * simpl in L |- *; lia.
      * inversion F as [|? ? Fh Fr]; subst.
        constructor; [simpl; rewrite Ec, Fh; reflexivity|exact Fr].
Qed.

(** ** [iterator()] *)

(** A pass over the generator never yields a record: the header line is
    skipped and every further line reaches the detached decoder.  From the
    start of a stream, the pass ends in a TypeError exactly when the stream
    has a line after the header line. *)
Theorem iterator_never_yields : forall g,
  fst (iterator_pass g) = [] /\
  (forall hd ls, g = Some (mkgen hd 0 (Some ls)) ->
     snd (iterator_pass g) =
       if (2 <=? List.length ls)%nat then Some TypeError else None).
Proof.
  intros g; split.
  - destruct g as [[hd idx [ls|]]|]; simpl; auto; apply gen_loop_no_record.
  - intros hd ls ->; simpl.
    destruct ls as [|l1 [|l2 rest]]; simpl; auto.
    rewrite buildLineObject_unbound; reflexivity.
Qed.

Lemma iterator_never_yields_witness :
  snd (iterator_pass (Some (mkgen HNull 0 (Some ["a,b"; "1,2"])))) = Some TypeError.
Proof.
  destruct (iterator_never_yields (Some (mkgen HNull 0 (Some ["a,b"; "1,2"]))))
    as [_ E].
  rewrite (E HNull ["a,b"; "1,2"] eq_refl); reflexivity.
Defined.

(** [iterator()] hands out one generator per engine: once it has returned a
    generator [g], every later successful call returns [g] again, whatever
    operations ran in between ([rewind], [close] and [open], [buildIndex],
    [getLine]); the generator keeps reading the stream it was created
    over. *)
Theorem iterator_singleton : forall disk st st1 g st2,
  iterator st = Ok (st1, Some g) -> steps disk st1 st2 -> is_open st2 = true ->
  iterator st2 = Ok (st2, Some g).
Proof.
  intros disk st st1 g st2 Hi S Ho.
  assert (A : is_iterator_active st1 = true /\ iterator_object st1 = Some g).
  { unfold iterator in Hi; destruct (is_open st); [|discriminate]; simpl in Hi.
    destruct (is_iterator_active st) eqn:Ea; inv_ok Hi; simpl; auto. }
  destruct A as [A O].
  destruct (steps_generator disk st1 st2 S A) as [A' O'].
  unfold iterator; rewrite Ho, A'; simpl; rewrite O', O; reflexivity.
Qed.

Lemma iterator_singleton_witness :
  iterator (ok_or_fresh (rewind disk_rows 3
    (ok_or_fresh (p <- iterator (ok_or_fresh (opened disk_rows)) ;; Ok (fst p))))) =
  Ok (ok_or_fresh (rewind disk_rows 3
        (ok_or_fresh (p <- iterator (ok_or_fresh (opened disk_rows)) ;; Ok (fst p)))),
      Some (mkgen HNull 0 (Some (readline_lines disk_rows)))).
Proof.
  apply (iterator_singleton disk_rows (ok_or_fresh (opened disk_rows))
           (ok_or_fresh (p <- iterator (ok_or_fresh (opened disk_rows)) ;; Ok (fst p)))).
  - vm_compute; reflexivity.
  - match goal with |- steps _ ?a ?b =>
      apply (steps_cons disk_rows a b b
               (step_rewind disk_rows 3 a b ltac:(vm_compute; reflexivity))) end.
    apply steps_refl.
  - vm_compute; reflexivity.
Defined.

(** ** Lifecycle guards *)



(** [close()] drops the positioned-read descriptor unless
    [preserveFileHandle] is set, and the next [open()] then opens a new one;
    with [preserveFileHandle] the descriptor held is kept.  Either way the
    reopened engine reads its stream from the start of the file. *)
Theorem close_open_handle : forall disk fd p st st1 st2,
  close p st = Ok st1 -> open disk fd st1 = Ok st2 ->
  reading_handle st2 =
    (if p then match reading_handle st with Some h => Some h | None => Some fd end
     else Some fd) /\
  iterator_stream st2 = Some (readline_lines disk).
Proof.
  intros disk fd p st st1 st2 H1 H2.
  unfold close in H1; destruct (is_open st); [|discriminate]; inv_ok H1.
  unfold open in H2; simpl in H2; inv_ok H2; simpl.
  destruct p; auto.
Qed.

Lemma close_open_handle_witness :
  reading_handle (ok_or_fresh (open disk_rows 7
    (ok_or_fresh (close false (ok_or_fresh (opened disk_rows)))))) = Some 7.
Proof.
  exact (proj1 (close_open_handle disk_rows 7 false (ok_or_fresh (opened disk_rows))
    (ok_or_fresh (close false (ok_or_fresh (opened disk_rows))))
    (ok_or_fresh (open disk_rows 7
       (ok_or_fresh (close false (ok_or_fresh (opened disk_rows))))))
    ltac:(vm_compute; reflexivity) ltac:(vm_compute; reflexivity))).
Defined.

(** ** The accessors *)

(** Once [buildIndex()] has succeeded, the engine stays indexed through any
    sequence of operations, so [header], [lines], [columns] and [size] no
    longer throw. *)
Theorem indexed_persistent : forall disk fd max st st1 st2,
  buildIndex disk fd max st = Ok st1 -> steps disk st1 st2 ->
  get_header st2 = Ok (header st2) /\ get_lines st2 = Ok (lines st2) /\
  get_columns st2 = Ok (columns st2) /\ get_size st2 = Ok (size st2).
Proof.
  intros disk fd max st st1 st2 Hb S.
  assert (I : is_indexed st2 = true).
  { apply (steps_indexed disk st1 st2 S).
    apply buildIndex_ok in Hb as (ls & _ & _ & ->); reflexivity. }
  unfold get_header, get_lines, get_columns, get_size; rewrite I.
  repeat split.
Qed.

Lemma indexed_persistent_witness :
  get_lines (ok_or_fresh (close false (ok_or_fresh (indexed disk_rows (-1))))) =
  Ok (lines (ok_or_fresh (close false (ok_or_fresh (indexed disk_rows (-1)))))).
Proof.
  destruct (indexed_persistent disk_rows 3 (-1) (ok_or_fresh (opened disk_rows))
              (ok_or_fresh (indexed disk_rows (-1)))
              (ok_or_fresh (close false (ok_or_fresh (indexed disk_rows (-1)))))
              ltac:(vm_compute; reflexivity)) as (_ & L & _).
  - match goal with |- steps _ ?a ?b =>
      apply (steps_cons disk_rows a b b
               (step_close disk_rows false a b ltac:(vm_compute; reflexivity))) end.
    apply steps_refl.
  - exact L.
Defined.

(** No operation but [buildIndex()] makes an unindexed engine indexed: the
    accessors throw on every engine reached without it. *)
Theorem indexing_only_by_buildIndex : forall disk st st',
  step disk st st' -> is_indexed st = false ->
  get_lines st' <> Error StateError ->
  exists fd max, buildIndex disk fd max st = Ok st'.
Proof.
  intros disk st st' S Hf Hg.
  destruct (step_frame disk st st' S) as (_ & B & _).
  assert (I : is_indexed st' = true)
    by (unfold get_lines in Hg; destruct (is_indexed st'); auto; contradiction).
  destruct (B I) as [I0|E]; [congruence|exact E].
Qed.

Lemma indexing_only_by_buildIndex_witness :
  exists fd max, buildIndex disk_rows fd max (ok_or_fresh (opened disk_rows)) =
                 Ok (ok_or_fresh (indexed disk_rows (-1))).
Proof.
  apply (indexing_only_by_buildIndex disk_rows).
  - apply (step_buildIndex disk_rows 3 (-1)); vm_compute; reflexivity.
  - vm_compute; reflexivity.
  - vm_compute; discriminate.
Defined.

(** ** [buildIndex()] and [getLine()] leave parts of the engine alone *)

(** [buildIndex()] resets [lines] and [size] but never clears the Index
    Table: the entries held before stay, in front of the new ones. *)
Theorem buildIndex_keeps_pool : forall disk fd max st st',
  buildIndex disk fd max st = Ok st' ->
  exists new, index_pool st' = (index_pool st ++ new)%list.
Proof.
  intros disk fd max st st' H.
  apply buildIndex_ok in H as (ls & _ & _ & ->); simpl.
  apply index_loop_pool_prefix.
Qed.

Lemma buildIndex_keeps_pool_witness :
  index_pool ix_spec <> [] /\
  exists new, index_pool (ok_or_fresh (buildIndex disk_spec 3 (-1) ix_spec)) =
              (index_pool ix_spec ++ new)%list.
Proof.
  split; [vm_compute; discriminate|].
  apply (buildIndex_keeps_pool disk_spec 3 (-1) ix_spec).
  vm_compute; reflexivity.
Defined.

(** A successful [getLine()] changes nothing in the engine but the contents
    of the shared [#reading_buffer], whose length it keeps. *)
Theorem getLine_frame : forall disk st i st' r,
  getLine disk st i = Ok (st', r) ->
  st' = set_reading_buffer st (reading_buffer st') /\
  option_map (@List.length ascii) (reading_buffer st') =
    option_map (@List.length ascii) (reading_buffer st).
Proof.
  intros disk st i st' r H.
  destruct (getLine_shape disk st i st' r H) as (_ & _ & E & L); auto.
Qed.

Lemma getLine_frame_witness :
  match getLine disk_rows (ok_or_fresh (indexed disk_rows (-1))) 1 with
  | Ok (st', _) =>
      option_map (@List.length ascii) (reading_buffer st') = Some 5%nat
  | Error _ => False
  end.
Proof.
  destruct (getLine disk_rows (ok_or_fresh (indexed disk_rows (-1))) 1)
    as [[st' r]|] eqn:E; [|vm_compute in E; discriminate].
  rewrite (proj2 (getLine_frame _ _ _ _ _ E)); vm_compute; reflexivity.
Defined.

(** ** The decoder *)

Lemma decoder_shape : forall p l i hd hdr,
  header_used (Some p) hd = Some hdr ->
  buildLineObject (Some p) l i hd =
    if (List.length hdr <? List.length (splitCSVLine l))%nat then
      f <- excess_fields hdr (splitCSVLine l) (mkobj [("_unnamed", FArr [])] false) ;;
      Ok (mkline i l (splitCSVLine l) false true f)
    else Ok (mkline i l (splitCSVLine l) false false
               (normal_fields hdr (splitCSVLine l) (mkobj [("_unnamed", FArr [])] false))).
Proof.
  intros p l i hd hdr H; unfold buildLineObject.
  destruct hd as [|s|a]; simpl in H |- *.
  - destruct (header p) as [h|]; [injection H as <-|discriminate]; reflexivity.
  - injection H as <-; reflexivity.
  - injection H as <-; reflexivity.
Qed.

Lemma lookup_update_other : forall k k' v l,
  k <> k' -> lookup k (update k' v l) = lookup k l.
Proof.
  intros k k' v l Hk; induction l as [|[k0 v0] t IH]; simpl.
  - destruct (String.eqb k k') eqn:E; [apply String.eqb_eq in E; contradiction|reflexivity].
  - destruct (String.eqb k' k0) eqn:E1; simpl.
    + apply String.eqb_eq in E1; subst k0.
      destruct (String.eqb k k') eqn:E; [apply String.eqb_eq in E; contradiction|reflexivity].
    + destruct (String.eqb k k0); auto.
Qed.

Lemma lookup_app : forall k l1 l2,
  lookup k (l1 ++ l2) = match lookup k l1 with Some v => Some v | None => lookup k l2 end.
Proof.
  intros k l1 l2; induction l1 as [|[k0 v0] t IH]; simpl; auto.
  destruct (String.eqb k k0); auto.
Qed.

Lemma update_fresh : forall k v l,
  lookup k l = None -> update k v l = (l ++ [(k, v)])%list.
Proof.
  intros k v l; induction l as [|[k0 v0] t IH]; simpl; intros H; auto.
  destruct (String.eqb k k0); [discriminate|rewrite IH; auto].
Qed.

Definition unnamed_array (acc : result jsobj) : Prop :=
  exists o us, acc = Ok o /\ lookup "_unnamed" (props o) = Some (FArr us).

Lemma unnamed_get : forall o us,
  lookup "_unnamed" (props o) = Some (FArr us) -> obj_get o "_unnamed" = GVal (FArr us).
Proof. intros o us H; unfold obj_get; simpl; rewrite H; reflexivity. Qed.

Lemma unnamed_set : forall o us,
  lookup "_unnamed" (props (obj_set o "_unnamed" (FArr us))) = Some (FArr us).
Proof. intros o us; unfold obj_set; simpl; apply lookup_update_same. Qed.

Lemma excess_step_unnamed : forall hdr cs acc n,
  unnamed_array acc -> unnamed_array (excess_step hdr cs acc n).
Proof.
  intros hdr cs acc n (o & us & -> & Hu); simpl.
  assert (Hp : forall c, unnamed_array (push_unnamed o c)).
  { intros c; unfold push_unnamed; rewrite (unnamed_get o us Hu).
    do 2 eexists; split; [reflexivity|apply unnamed_set]. }
  destruct (nth_error hdr n) as [col|]; auto.
  destruct (String.eqb col ""); auto.
  destruct (String.eqb col "_unnamed") eqn:Ec.
  - apply String.eqb_eq in Ec; subst col.
    unfold assign; rewrite (unnamed_get o us Hu).
    do 2 eexists; split; [reflexivity|apply unnamed_set].
  - destruct (assign_is_set o col (cell_at cs n)) as [v ->].
    unfold obj_set; destruct (proto_accessor o col).
    + destruct v; do 2 eexists; split; eauto.
    + do 2 eexists; split; [reflexivity|simpl].
      rewrite lookup_update_other; [exact Hu|].
      intros E; rewrite <- E, String.eqb_refl in Ec; discriminate.
Qed.

Section CleanHeader.

Variables (hdr cs : list string).
Hypothesis Hnd : NoDup hdr.
Hypothesis Hcl : forall c, In c hdr -> c <> "" /\ c <> "_unnamed" /\ c <> "__proto__".

Lemma header_pairs_fresh : forall m j,
  (m <= j)%nat -> (j < List.length hdr)%nat ->
  lookup (nth j hdr "") (header_pairs hdr cs m) = None.
Proof.
  induction m as [|m IH]; intros j Hm Hj; [reflexivity|].
  unfold header_pairs; rewrite seq_S, map_app, lookup_app.
  fold (header_pairs hdr cs m); rewrite IH by lia; simpl.
  destruct (String.eqb (nth j hdr "") (nth m hdr "")) eqn:E; [|reflexivity].
  apply String.eqb_eq in E.
  apply (proj1 (NoDup_nth hdr "") Hnd j m) in E; lia.
Qed.

Lemma clean_nth : forall j, (j < List.length hdr)%nat ->
  nth j hdr "" <> "" /\ nth j hdr "" <> "_unnamed" /\ nth j hdr "" <> "__proto__".
Proof. intros j Hj; apply Hcl, nth_In; exact Hj. Qed.

Lemma assign_clean : forall us m,
  (m < List.length hdr)%nat ->
  assign (mkobj (("_unnamed", FArr us) :: header_pairs hdr cs m) false)
         (nth m hdr "") (cell_at cs m) =
  mkobj (("_unnamed", FArr us) :: header_pairs hdr cs (S m)) false.
Proof.
  intros us m Hm.
  destruct (clean_nth m Hm) as (_ & Hu & Hp).
  assert (Hf : lookup (nth m hdr "")
                 (("_unnamed", FArr us) :: header_pairs hdr cs m) = None).
  { simpl; destruct (String.eqb (nth m hdr "") "_unnamed") eqn:E;
      [apply String.eqb_eq in E; contradiction|].
    apply header_pairs_fresh; lia. }
  assert (Ha : proto_accessor (mkobj (("_unnamed", FArr us) :: header_pairs hdr cs m) false)
                 (nth m hdr "") = false).
  { unfold proto_accessor; simpl.
    destruct (String.eqb (nth m hdr "") "__proto__") eqn:E; auto.
    apply String.eqb_eq in E; contradiction. }
  unfold assign, obj_get; rewrite Ha; cbn [props]; rewrite Hf.
  unfold obj_set; rewrite Ha; cbn [props proto_null].
  rewrite update_fresh by exact Hf.
  unfold header_pairs; rewrite seq_S, map_app; reflexivity.
Qed.

Lemma excess_fold_clean : forall m, (m <= List.length cs)%nat ->
  fold_left (excess_step hdr cs) (seq 0 m) (Ok (mkobj [("_unnamed", FArr [])] false)) =
  Ok (mkobj (("_unnamed", FArr (map (cell_at cs)
                                  (seq (List.length hdr) (m - List.length hdr))))
             :: header_pairs hdr cs (Nat.min m (List.length hdr))) false).
Proof.
  induction m as [|m IH]; intros Hm; [reflexivity|].
  rewrite seq_S, Nat.add_0_l, fold_left_app; cbn [fold_left]; rewrite IH by lia.
  unfold excess_step, bind.
  destruct (Nat.lt_ge_cases m (List.length hdr)) as [Hl|Hl].
  - destruct (nth_error hdr m) as [col|] eqn:Ec;
      [|apply nth_error_None in Ec; lia].
    pose proof (nth_error_nth hdr m "" Ec) as En; subst col.
    destruct (clean_nth m Hl) as (He & _ & _).
    destruct (String.eqb (nth m hdr "") "") eqn:E;
      [apply String.eqb_eq in E; contradiction|].
    replace (m - List.length hdr)%nat with 0%nat by lia.
    replace (S m - List.length hdr)%nat with 0%nat by lia.
    replace (Nat.min m (List.length hdr)) with m by lia.
    replace (Nat.min (S m) (List.length hdr)) with (S m) by lia.
    cbn [seq map]; f_equal; apply assign_clean; exact Hl.
  - destruct (nth_error hdr m) as [col|] eqn:Ec;
      [rewrite (proj2 (nth_error_None hdr m) Hl) in Ec; discriminate|].
    replace (Nat.min (S m) (List.length hdr)) with (Nat.min m (List.length hdr)) by lia.
    replace (S m - List.length hdr)%nat with (S (m - List.length hdr)) by lia.
    rewrite seq_S, map_app.
    replace (List.length hdr + (m - List.length hdr))%nat with m by lia.
    unfold push_unnamed, obj_get, obj_set, proto_accessor; cbn [props proto_null lookup update].
    reflexivity.
Qed.

Lemma normal_fold_clean : forall m, (m <= List.length hdr)%nat ->
  fold_left (normal_step hdr cs) (seq 0 m) (mkobj [("_unnamed", FArr [])] false) =
  mkobj (("_unnamed", FArr []) :: header_pairs hdr cs m) false.
Proof.
  induction m as [|m IH]; intros Hm; [reflexivity|].
  rewrite seq_S, fold_left_app; simpl; rewrite IH by lia.
  unfold normal_step; apply assign_clean; lia.
Qed.

End CleanHeader.

Lemma assign_unnamed : forall o col c us,
  lookup "_unnamed" (props o) = Some (FArr us) ->
  exists us', lookup "_unnamed" (props (assign o col c)) = Some (FArr us').
Proof.
  intros o col c us Hu.
  destruct (String.eqb col "_unnamed") eqn:Ec.
  - apply String.eqb_eq in Ec; subst col.
    unfold assign; rewrite (unnamed_get o us Hu).
    eexists; apply unnamed_set.
  - destruct (assign_is_set o col c) as [v ->].
    unfold obj_set; destruct (proto_accessor o col).
    + destruct v; eauto.
    + exists us; simpl.
      rewrite lookup_update_other; [exact Hu|].
      intros E; rewrite <- E, String.eqb_refl in Ec; discriminate.
Qed.

(** With a receiver and column names to use, the decoder never fails: the
    record keeps the index and the line, holds the cells of
    [line.split(',')], never flags missing cells, flags excess cells exactly
    when there are more cells than column names, and its [fields] keep
    [_unnamed] an array. *)
Theorem decoder_total : forall p l i hd hdr,
  header_used (Some p) hd = Some hdr ->
  exists f us,
    buildLineObject (Some p) l i hd =
      Ok (mkline i l (splitCSVLine l) false
             (List.length hdr <? List.length (splitCSVLine l))%nat f) /\
    lookup "_unnamed" (props f) = Some (FArr us).
Proof.
  intros p l i hd hdr H; rewrite (decoder_shape p l i hd hdr H).
  destruct (List.length hdr <? List.length (splitCSVLine l))%nat.
  - unfold excess_fields.
    destruct (fold_left_preserve (excess_step hdr (splitCSVLine l)) unnamed_array
                (seq 0 (List.length (splitCSVLine l)))
                (Ok (mkobj [("_unnamed", FArr [])] false)))
      as (f & us & E & Hu).
    + exists (mkobj [("_unnamed", FArr [])] false), []; split; reflexivity.
    + intros; apply excess_step_unnamed; auto.
    + rewrite E; simpl; exists f, us; split; auto.
  - unfold normal_fields.
    destruct (fold_left_preserve (normal_step hdr (splitCSVLine l))
                (fun o => exists us, lookup "_unnamed" (props o) = Some (FArr us))
                (seq 0 (List.length hdr)) (mkobj [("_unnamed", FArr [])] false))
      as [us Hu].
    + exists []; reflexivity.
    + intros o n _ [us Hu]; unfold normal_step; eapply assign_unnamed; exact Hu.
    + eexists; exists us; split; [reflexivity|exact Hu].
Qed.

Lemma decoder_total_witness :
  exists f us,
    buildLineObject (Some ix_spec) "1,2,3" 1 HNull =
      Ok (mkline 1 "1,2,3" (splitCSVLine "1,2,3") false
             (List.length ["a"; "b"] <? List.length (splitCSVLine "1,2,3"))%nat f) /\
    lookup "_unnamed" (props f) = Some (FArr us).
Proof.
  apply (decoder_total ix_spec "1,2,3" 1 HNull ["a"; "b"]).
  vm_compute; reflexivity.
Defined.

(** For column names that are distinct, non-empty, neither [_unnamed]
    nor [__proto__], and not array indices (none starts with a digit), the
    decoder's [fields] are exactly, in JS enumeration order: [_unnamed]
    with the cells past the header (empty cells as [null]), then each
    column name in header order with its cell, or [null] for an empty or
    missing cell. *)
Theorem decoder_fields_exact : forall p l i hd hdr,
  header_used (Some p) hd = Some hdr -> NoDup hdr ->
  (forall c, In c hdr ->
     c <> "" /\ c <> "_unnamed" /\ c <> "__proto__" /\ not_index_key c = true) ->
  buildLineObject (Some p) l i hd =
    Ok (mkline i l (splitCSVLine l) false
          (List.length hdr <? List.length (splitCSVLine l))%nat
          (mkobj (("_unnamed", FArr (excess_cells hdr (splitCSVLine l)))
                  :: header_pairs hdr (splitCSVLine l) (List.length hdr)) false)).
Proof.
  intros p l i hd hdr H Hnd Hcl4.
  assert (Hcl : forall c, In c hdr -> c <> "" /\ c <> "_unnamed" /\ c <> "__proto__")
    by (intros c Hc; destruct (Hcl4 c Hc) as (? & ? & ? & _); auto).
  rewrite (decoder_shape p l i hd hdr H).
  destruct (List.length hdr <? List.length (splitCSVLine l))%nat eqn:Ex.
  - apply Nat.ltb_lt in Ex.
    unfold excess_fields.
    rewrite (excess_fold_clean hdr (splitCSVLine l) Hnd Hcl
               (List.length (splitCSVLine l)) (le_n _)).
    replace (Nat.min (List.length (splitCSVLine l)) (List.length hdr))
      with (List.length hdr) by lia.
    reflexivity.
  - apply Nat.ltb_ge in Ex.
    unfold normal_fields.
    rewrite (normal_fold_clean hdr (splitCSVLine l) Hnd Hcl (List.length hdr) (le_n _)).
    unfold excess_cells.
    replace (List.length (splitCSVLine l) - List.length hdr)%nat with 0%nat by lia.
    reflexivity.
Qed.

Lemma decoder_fields_exact_witness :
  buildLineObject (Some ix_spec) "1,,3,4" 1 HNull =
    Ok (mkline 1 "1,,3,4" ["1"; ""; "3"; "4"] false true
          (mkobj [("_unnamed", FArr [Some "3"; Some "4"]);
                  ("a", FStr "1"); ("b", FNull)] false)).
Proof.
  rewrite (decoder_fields_exact ix_spec "1,,3,4" 1 HNull ["a"; "b"]).
  - reflexivity.
  - vm_compute; reflexivity.
  - repeat constructor; simpl; intuition discriminate.
  - intros c Hc; simpl in Hc.
    destruct Hc as [<-|[<-|[]]]; repeat split; try discriminate; reflexivity.
Defined.

(** ** The keys of [fields] (claim C8) *)





(** ** [buildIndex()] on a freshly opened engine *)

Lemma sum_len_nonneg : forall ls, 0 <= sum_len ls.
Proof. induction ls as [|l t IH]; simpl; lia. Qed.

Lemma max_length_nonneg : forall ls, 0 <= max_length ls.
Proof. induction ls as [|l t IH]; simpl; lia. Qed.


Lemma index_loop_all : forall max rest a,
  max < 0 -> 0 < a_lines a -> 0 <= a_maxLength a ->
  index_loop 1 max rest a =
    mkacc (a_lines a + Z.of_nat (List.length rest)) (a_size a + sum_len rest)
          (a_header a) (a_columns a)
          (a_pool a ++ index_entries (a_size a) rest)
          (Z.max (a_maxLength a) (max_length rest)).
Proof.
  intros max rest; induction rest as [|l rest IH]; intros a Hm Hl H0; simpl.
  - destruct a; simpl in *; rewrite app_nil_r, !Z.add_0_r, Z.max_l by lia.
    reflexivity.
  - destruct (a_lines a =? 0) eqn:E; [apply Z.eqb_eq in E; lia|].
    replace ((0 <=? max) && (max <=? a_lines a)) with false
      by (symmetry; apply andb_false_iff; left; apply Z.leb_gt; lia).
    rewrite IH; simpl; [|lia|lia|].
    + rewrite <- app_assoc; simpl.
      f_equal; try lia.
      destruct (a_maxLength a <=? Z.of_nat (String.length l)) eqn:Em.
      * apply Z.leb_le in Em; lia.
      * apply Z.leb_gt in Em; lia.
    + destruct (a_maxLength a <=? Z.of_nat (String.length l)); lia.
Qed.

Lemma buildIndex_fresh : forall disk fd fname max st ix,
  max < 0 -> CSVFileParser_new disk fd fname true = Ok st ->
  buildIndex disk fd max st = Ok ix ->
  is_open ix = true /\ is_indexed ix = true /\
  match readline_lines disk with
  | [] => header ix = None /\ columns ix = 0 /\ lines ix = 0 /\ size ix = 0 /\
          index_pool ix = [] /\ reading_buffer ix = Some []
  | h :: rest =>
      header ix = Some (splitCSVLine h) /\
      columns ix = Z.of_nat (List.length (splitCSVLine h)) /\
      lines ix = Z.of_nat (S (List.length rest)) /\
      size ix = sum_len (h :: rest) /\
      index_pool ix = index_entries (Z.of_nat (String.length h) + 1) rest /\
      reading_buffer ix = Some (repeat NUL (Z.to_nat (max_length rest)))
  end.
Proof.
  intros disk fd fname max st ix Hm Hn Hb.
  destruct (opened_state disk fd fname st Hn) as (Ho & Hs & Hd & Hp & Hh & Hc).
  unfold buildIndex in Hb; rewrite Ho, Hs, Hd, Hp, Hh, Hc in Hb; simpl in Hb.
  unfold close, open in Hb; simpl in Hb.
  injection Hb as <-; simpl.
  split; [reflexivity|split; [reflexivity|]].
  destruct (readline_lines disk) as [|h rest]; simpl.
  - repeat split.
  - rewrite index_loop_all by (simpl; lia).
    cbn [a_lines a_size a_header a_columns a_pool a_maxLength app].
    rewrite Z.max_r by apply max_length_nonneg.
    repeat split; try lia.
Qed.

(** After [buildIndex()] (no [max]) on a freshly opened engine over an
    ASCII file, the engine
    describes the whole file: the header is the first line split on commas,
    [columns] its length, [lines] counts every line (the header line too),
    [size] is the bytes of all lines with a one-byte divisor each, the
    Index Table has one entry per data row (its offset and its length with
    the divisor), and the read buffer is as long as the longest data row. *)
Theorem buildIndex_full : forall disk fd fname max st ix,
  ascii_file disk = true -> max < 0 -> CSVFileParser_new disk fd fname true = Ok st ->
  buildIndex disk fd max st = Ok ix ->
  match readline_lines disk with
  | [] => header ix = None /\ columns ix = 0 /\ lines ix = 0 /\ size ix = 0 /\
          index_pool ix = [] /\ reading_buffer ix = Some []
  | h :: rest =>
      header ix = Some (splitCSVLine h) /\
      columns ix = Z.of_nat (List.length (splitCSVLine h)) /\
      lines ix = Z.of_nat (S (List.length rest)) /\
      size ix = sum_len (h :: rest) /\
      index_pool ix = index_entries (Z.of_nat (String.length h) + 1) rest /\
      reading_buffer ix = Some (repeat NUL (Z.to_nat (max_length rest)))
  end.
Proof.
  intros disk fd fname max st ix Ha Hm Hn Hb.
  exact (proj2 (proj2 (buildIndex_fresh disk fd fname max st ix Hm Hn Hb))).
Qed.

Lemma buildIndex_full_witness :
  index_pool ix_spec = index_entries 4 ["1,2"; "3,4,5"; "6"] /\ lines ix_spec = 4.
Proof.
  pose proof (buildIndex_full disk_spec 3 "data.csv" (-1) (ok_or_fresh (opened disk_spec))
                ix_spec ltac:(vm_compute; reflexivity) ltac:(lia) ltac:(vm_compute; reflexivity)
                ltac:(vm_compute; reflexivity)) as H.
  replace (readline_lines disk_spec) with ["a,b"; "1,2"; "3,4,5"; "6"] in H
    by (vm_compute; reflexivity).
  destruct H as (_ & _ & L & _ & P & _); split; [exact P|exact L].
Defined.

(** ** Files of plain lines ending in LF *)

Lemma chars_app : forall s1 s2,
  list_ascii_of_string (s1 ++ s2) = (list_ascii_of_string s1 ++ list_ascii_of_string s2)%list.
Proof. induction s1 as [|c t IH]; intros s2; simpl; [reflexivity|rewrite IH; reflexivity]. Qed.

Lemma chars_length : forall s, List.length (list_ascii_of_string s) = String.length s.
Proof. induction s as [|c t IH]; simpl; auto. Qed.

Lemma join_chars : forall l t,
  list_ascii_of_string (join_lines LFs (l :: t)) =
  (list_ascii_of_string l ++ LF :: list_ascii_of_string (join_lines LFs t))%list.
Proof. intros l t; simpl; rewrite chars_app; reflexivity. Qed.

Lemma rl_plain_line : forall l cur rest,
  plain_line l = true ->
  rl_lines (list_ascii_of_string l ++ LF :: rest) cur =
  string_of_list_ascii (rev cur ++ list_ascii_of_string l) :: rl_lines rest [].
Proof.
  induction l as [|c t IH]; intros cur rest Hp; simpl.
  - rewrite app_nil_r; reflexivity.
  - unfold plain_line in Hp; simpl in Hp; apply andb_true_iff in Hp as [Hc Ht].
    destruct (Ascii.eqb c LF), (Ascii.eqb c CR); simpl in Hc; try discriminate.
    rewrite IH by exact Ht; simpl; rewrite <- app_assoc; reflexivity.
Qed.

(** Node's readline gives back the lines of a file written line by line
    with LF, when no line holds LF or CR. *)
Lemma readline_join : forall ls,
  forallb plain_line ls = true -> readline_lines (join_lines LFs ls) = ls.
Proof.
  induction ls as [|l t IH]; intros H; [reflexivity|].
  simpl in H; apply andb_true_iff in H as [Hl Ht].
  unfold readline_lines in *; rewrite join_chars, rl_plain_line by exact Hl.
  simpl; rewrite string_of_list_ascii_of_string, IH by exact Ht; reflexivity.
Qed.

Lemma index_entries_length : forall off rest,
  List.length (index_entries off rest) = List.length rest.
Proof. intros off rest; revert off; induction rest; intros off; simpl; auto. Qed.

Lemma index_entries_nth : forall rest off j,
  (j < List.length rest)%nat ->
  nth_error (index_entries off rest) j =
    Some (off + sum_len (firstn j rest), Z.of_nat (String.length (nth j rest "")) + 1).
Proof.
  induction rest as [|l t IH]; intros off j Hj; simpl in Hj; [lia|].
  destruct j as [|j]; simpl; [rewrite Z.add_0_r; reflexivity|].
  rewrite IH by lia; f_equal; f_equal; lia.
Qed.

Lemma skipn_app_exact : forall (A : Type) (l1 l2 : list A) n,
  skipn (List.length l1 + n) (l1 ++ l2) = skipn n l2.
Proof. intros A l1; induction l1 as [|a t IH]; intros l2 n; simpl; auto. Qed.

Lemma join_skip : forall k ls,
  skipn (Z.to_nat (sum_len (firstn k ls))) (list_ascii_of_string (join_lines LFs ls)) =
  list_ascii_of_string (join_lines LFs (skipn k ls)).
Proof.
  induction k as [|k IH]; intros ls; [reflexivity|].
  destruct ls as [|l t]; [reflexivity|].
  cbn [firstn skipn sum_len fold_right]; fold (sum_len (firstn k t)).
  rewrite join_chars.
  replace (Z.to_nat (Z.of_nat (String.length l) + 1 + sum_len (firstn k t)))
    with (List.length (list_ascii_of_string l ++ [LF]) + Z.to_nat (sum_len (firstn k t)))%nat
    by (rewrite length_app, chars_length; simpl;
        pose proof (sum_len_nonneg (firstn k t)); lia).
  replace (list_ascii_of_string l ++ LF :: list_ascii_of_string (join_lines LFs t))%list
    with ((list_ascii_of_string l ++ [LF]) ++ list_ascii_of_string (join_lines LFs t))%list
    by (rewrite <- app_assoc; reflexivity).
  rewrite skipn_app_exact; apply IH.
Qed.

Lemma skipn_nth : forall (l : list string) j,
  (j < List.length l)%nat -> skipn j l = nth j l "" :: skipn (S j) l.
Proof.
  induction l as [|a t IH]; intros j Hj; simpl in Hj; [lia|].
  destruct j; [reflexivity|simpl; apply IH; lia].
Qed.

(** The bytes at the [j]-th entry of the Index Table are data row [j] and
    its LF. *)
Lemma row_bytes : forall h rest j,
  (j < List.length rest)%nat ->
  firstn (S (String.length (nth j rest "")))
    (skipn (Z.to_nat (Z.of_nat (String.length h) + 1 + sum_len (firstn j rest)))
       (list_ascii_of_string (join_lines LFs (h :: rest)))) =
  (list_ascii_of_string (nth j rest "") ++ [LF])%list.
Proof.
  intros h rest j Hj.
  pose proof (join_skip (S j) (h :: rest)) as E.
  cbn [firstn skipn sum_len fold_right] in E; fold (sum_len (firstn j rest)) in E.
  rewrite E, (skipn_nth rest j Hj), join_chars.
  replace (S (String.length (nth j rest "")))
    with (List.length (list_ascii_of_string (nth j rest "") ++ [LF]) + 0)%nat
    by (rewrite length_app, chars_length; simpl; lia).
  replace (list_ascii_of_string (nth j rest "") ++ LF ::
             list_ascii_of_string (join_lines LFs (skipn (S j) rest)))%list
    with ((list_ascii_of_string (nth j rest "") ++ [LF]) ++
            list_ascii_of_string (join_lines LFs (skipn (S j) rest)))%list
    by (rewrite <- app_assoc; reflexivity).
  rewrite firstn_app_2; simpl; rewrite app_nil_r; reflexivity.
Qed.

Lemma drop_space_snoc : forall l c,
  is_js_space c = true ->
  drop_space (l ++ [c]) = match drop_space l with [] => [] | d => (d ++ [c])%list end.
Proof.
  induction l as [|a t IH]; intros c Hc; simpl; [rewrite Hc; reflexivity|].
  destruct (is_js_space a); [apply IH; exact Hc|reflexivity].
Qed.

(** [trim] drops the LF read with a row. *)
Lemma trim_row_lf : forall r,
  trim (string_of_list_ascii (list_ascii_of_string r ++ [LF])) = trim r.
Proof.
  intros r; unfold trim; rewrite list_ascii_of_string_of_list_ascii.
  rewrite drop_space_snoc by reflexivity.
  destruct (drop_space (list_ascii_of_string r)) as [|d ds] eqn:E; [reflexivity|].
  rewrite rev_app_distr; reflexivity.
Qed.



(** On such a file, indexed as above, [getLine(i)] for [1 <= i] and [i]
    below the number of data rows reads data row [i] (the one after the row
    the caller asked for) and decodes it trimmed, unless that row is a
    longest data row: its length with the LF is then larger than the shared
    read buffer and the positioned read fails.  For [i] equal to the number
    of data rows, or to [lines], there is no entry to read and [getLine]
    fails with a TypeError. *)
Theorem getLine_reads_row : forall disk fd fname max h rest st ix i,
  disk = join_lines LFs (h :: rest) -> ascii_file disk = true -> forallb plain_line (h :: rest) = true ->
  max < 0 -> CSVFileParser_new disk fd fname true = Ok st ->
  buildIndex disk fd max st = Ok ix ->
  (1 <= i < Z.of_nat (List.length rest) ->
     getLine_record disk ix i =
       if Z.of_nat (String.length (nth (Z.to_nat i) rest "")) <? max_length rest
       then buildLineObject (Some ix) (trim (nth (Z.to_nat i) rest "")) i HNull
       else Error IOError) /\
  (rest <> [] -> Z.of_nat (List.length rest) <= i <= Z.of_nat (S (List.length rest)) ->
     getLine_record disk ix i = Error TypeError).
Proof.
  intros disk fd fname max h rest st ix i Hd Ha Hp Hm Hn Hb; subst disk.
  destruct (buildIndex_fresh _ fd fname max st ix Hm Hn Hb) as (Ho & Hi & B).
  rewrite (readline_join _ Hp) in B; destruct B as (Hh & _ & Hl & _ & P & Rb).
  unfold getLine_record, getLine; rewrite Ho, Hi, P, Hl; cbn [negb orb].
  split.
  - intros Hr.
    destruct rest as [|r0 rest0]; [simpl in Hr; lia|].
    assert (Ne : match index_entries (Z.of_nat (String.length h) + 1) (r0 :: rest0)
                 with [] => true | _ => false end = false) by reflexivity.
    rewrite Ne.
    replace ((i =? 0) || (Z.of_nat (S (List.length (r0 :: rest0))) <? i) || (i <=? 0))
      with false by (symmetry; apply orb_false_iff; split;
                     [apply orb_false_iff; split; [apply Z.eqb_neq|apply Z.ltb_ge]
                     |apply Z.leb_gt]; lia).
    set (rs := r0 :: rest0) in *.
    rewrite index_entries_nth by lia.
    replace (Z.of_nat (String.length (nth (Z.to_nat i) rs "")) + 1 =? 0) with false
      by (symmetry; apply Z.eqb_neq; lia).
    rewrite Rb; unfold readAtIndex.
    replace (Z.to_nat (Z.of_nat (String.length (nth (Z.to_nat i) rs "")) + 1))
      with (S (String.length (nth (Z.to_nat i) rs ""))) by lia.
    rewrite repeat_length; cbn [Nat.eqb].
    pose proof (max_length_nonneg rs) as M0.
    destruct (Z.of_nat (String.length (nth (Z.to_nat i) rs "")) <? max_length rs) eqn:Ec.
    + apply Z.ltb_lt in Ec.
      replace (Z.to_nat (max_length rs) =? 0)%nat with false
        by (symmetry; apply Nat.eqb_neq; lia).
      replace (Z.to_nat (max_length rs) <? S (String.length (nth (Z.to_nat i) rs "")))%nat with false
        by (symmetry; apply Nat.ltb_ge; lia).
      rewrite (row_bytes h rs (Z.to_nat i)) by lia.
      replace (S (String.length (nth (Z.to_nat i) rs "")))
        with (List.length (list_ascii_of_string (nth (Z.to_nat i) rs "") ++ [LF]) + 0)%nat
        by (rewrite length_app, chars_length; simpl; lia).
      rewrite firstn_app_2; cbn [firstn]; rewrite app_nil_r.
      rewrite trim_row_lf; cbn [bind fst snd].
      match goal with |- context [buildLineObject (Some ?p) ?l ?j ?hd] =>
        rewrite (buildLineObject_self_header p ix l j hd) by reflexivity end.
      destruct (buildLineObject (Some ix) (trim (nth (Z.to_nat i) rs "")) i HNull); reflexivity.
    + apply Z.ltb_ge in Ec.
      destruct (Z.to_nat (max_length rs) =? 0)%nat; [reflexivity|].
      replace (Z.to_nat (max_length rs) <? S (String.length (nth (Z.to_nat i) rs "")))%nat with true
        by (symmetry; apply Nat.ltb_lt; lia).
      reflexivity.
  - intros Hne Hr.
    destruct rest as [|r0 rest0]; [contradiction|].
    assert (Ne : match index_entries (Z.of_nat (String.length h) + 1) (r0 :: rest0)
                 with [] => true | _ => false end = false) by reflexivity.
    rewrite Ne.
    replace ((i =? 0) || (Z.of_nat (S (List.length (r0 :: rest0))) <? i) || (i <=? 0))
      with false by (symmetry; apply orb_false_iff; split;
                     [apply orb_false_iff; split; [apply Z.eqb_neq|apply Z.ltb_ge]
                     |apply Z.leb_gt]; simpl in Hr |- *; lia).
    replace (nth_error (index_entries (Z.of_nat (String.length h) + 1) (r0 :: rest0))
               (Z.to_nat i)) with (@None (Z * Z)); [reflexivity|].
    symmetry; apply nth_error_None; rewrite index_entries_length; lia.
Qed.

Lemma getLine_reads_row_witness :
  getLine_record disk_spec ix_spec 2 = buildLineObject (Some ix_spec) "6" 2 HNull /\
  getLine_record disk_spec ix_spec 1 = Error IOError.
Proof.
  destruct (getLine_reads_row disk_spec 3 "data.csv" (-1) "a,b" ["1,2"; "3,4,5"; "6"]
              (ok_or_fresh (opened disk_spec)) ix_spec 2 eq_refl
              ltac:(vm_compute; reflexivity) ltac:(vm_compute; reflexivity) ltac:(lia)
              ltac:(vm_compute; reflexivity) ltac:(vm_compute; reflexivity))
    as [A _].
  destruct (getLine_reads_row disk_spec 3 "data.csv" (-1) "a,b" ["1,2"; "3,4,5"; "6"]
              (ok_or_fresh (opened disk_spec)) ix_spec 1 eq_refl
              ltac:(vm_compute; reflexivity) ltac:(vm_compute; reflexivity) ltac:(lia)
              ltac:(vm_compute; reflexivity) ltac:(vm_compute; reflexivity))
    as [B _].
  split.
  - rewrite (A ltac:(simpl; lia)); vm_compute; reflexivity.
  - rewrite (B ltac:(simpl; lia)); vm_compute; reflexivity.
Defined.

(** ** Repeated indexing and the divisor *)

(** A second [buildIndex()] (no [max]) on an engine indexed this way
    computes the same [lines], [size], [header] and [columns] again, and
    appends a second copy of every Index Table entry. *)
Theorem buildIndex_twice : forall disk fd fname max st ix1 ix2,
  max < 0 -> CSVFileParser_new disk fd fname true = Ok st ->
  buildIndex disk fd max st = Ok ix1 -> buildIndex disk fd max ix1 = Ok ix2 ->
  index_pool ix2 = (index_pool ix1 ++ index_pool ix1)%list /\
  lines ix2 = lines ix1 /\ size ix2 = size ix1 /\
  header ix2 = header ix1 /\ columns ix2 = columns ix1.
Proof.
  intros disk fd fname max st ix1 ix2 Hm Hn Hb1 Hb2.
  destruct (opened_state disk fd fname st Hn) as (Ho & Hs & Hd & Hp & Hh & Hc).
  apply buildIndex_ok in Hb1 as (ls1 & _ & Hs1 & E1).
  rewrite Hs in Hs1; injection Hs1 as <-.
  apply buildIndex_ok in Hb2 as (ls2 & _ & Hs2 & E2).
  cbv zeta in E1, E2; subst ix2 ix1.
  cbn [iterator_stream] in Hs2; injection Hs2 as <-.
  cbn [index_pool lines size header columns line_divisor].
  rewrite Hd, Hp, Hh, Hc.
  replace (String.eqb LFs "") with false by reflexivity.
  change (Z.of_nat (String.length LFs)) with 1.
  destruct (readline_lines disk) as [|h rest]; [repeat split|].
  cbn [index_loop a_lines].
  replace (0 =? 0) with true by reflexivity.
  rewrite !index_loop_all by (simpl; lia).
  cbn [a_lines a_size a_header a_columns a_pool a_maxLength].
  repeat split.
Qed.

Lemma buildIndex_twice_witness :
  index_pool (ok_or_fresh (buildIndex disk_spec 3 (-1) ix_spec)) =
  (index_pool ix_spec ++ index_pool ix_spec)%list.
Proof.
  apply (buildIndex_twice disk_spec 3 "data.csv" (-1) (ok_or_fresh (opened disk_spec))
           ix_spec (ok_or_fresh (buildIndex disk_spec 3 (-1) ix_spec)) ltac:(lia));
    vm_compute; reflexivity.
Defined.

(** The divisor-sniffing branch of [open()] never runs: the constructor sets
    [#line_divisor] to ["\n"] and no operation changes it, so every engine
    works with a one-byte LF divisor, whatever the file holds. *)
Theorem divisor_always_lf : forall disk st fd st',
  reachable disk st ->
  line_divisor st = LFs /\
  (open disk fd st = Ok st' -> line_divisor st' = LFs /\
     String.eqb (line_divisor st) "" = false).
Proof.
  intros disk st fd st' R.
  destruct (reachable_inv disk st R) as [D _ _].
  split; [exact D|intros H].
  rewrite D; split; [|reflexivity].
  unfold open in H; destruct (is_open st); [discriminate|]; inv_ok H; simpl.
  rewrite D; reflexivity.
Qed.

Lemma divisor_always_lf_witness :
  line_divisor (ok_or_fresh (open disk_crlf 3
    (ok_or_fresh (CSVFileParser_new disk_crlf 3 "data.csv" false)))) = LFs.
Proof.
  apply (divisor_always_lf disk_crlf
           (ok_or_fresh (CSVFileParser_new disk_crlf 3 "data.csv" false)) 3).
  - apply (reach_new disk_crlf 3 "data.csv" false); reflexivity.
  - vm_compute; reflexivity.
Defined.

(** ** The last line of a file without a final LF *)

Lemma rl_tail : forall l cur,
  plain_line l = true ->
  rl_lines (list_ascii_of_string l) cur =
  match (rev cur ++ list_ascii_of_string l)%list with
  | [] => []
  | x => [string_of_list_ascii x]
  end.
Proof.
  induction l as [|c t IH]; intros cur Hp; simpl.
  - rewrite app_nil_r; destruct cur as [|a cur]; [reflexivity|].
    simpl; destruct (rev cur ++ [a])%list eqn:E; [|reflexivity].
    apply app_eq_nil in E as [_ E]; discriminate.
  - unfold plain_line in Hp; simpl in Hp; apply andb_true_iff in Hp as [Hc Ht].
    destruct (Ascii.eqb c LF), (Ascii.eqb c CR); simpl in Hc; try discriminate.
    rewrite IH by exact Ht; simpl; rewrite <- app_assoc; simpl.
    destruct (rev cur ++ c :: list_ascii_of_string t)%list eqn:E; [|reflexivity].
    apply app_eq_nil in E as [_ E]; discriminate.
Qed.

Lemma rl_join_app : forall ls tail,
  forallb plain_line ls = true ->
  rl_lines (list_ascii_of_string (join_lines LFs ls) ++ tail) [] =
  (ls ++ rl_lines tail [])%list.
Proof.
  induction ls as [|l t IH]; intros tail H; [reflexivity|].
  simpl in H; apply andb_true_iff in H as [Hl Ht].
  rewrite join_chars, <- app_assoc; cbn [app].
  rewrite rl_plain_line by exact Hl.
  simpl; rewrite string_of_list_ascii_of_string, IH by exact Ht; reflexivity.
Qed.

Lemma join_chars_length : forall ls,
  List.length (list_ascii_of_string (join_lines LFs ls)) = Z.to_nat (sum_len ls).
Proof.
  induction ls as [|l t IH]; [reflexivity|].
  rewrite join_chars, length_app, chars_length; simpl.
  fold (sum_len t); rewrite IH; pose proof (sum_len_nonneg t); lia.
Qed.

Lemma forallb_app_plain : forall l1 l2,
  forallb plain_line (l1 ++ l2) = true ->
  forallb plain_line l1 = true /\ forallb plain_line l2 = true.
Proof. intros l1 l2 H; rewrite forallb_app in H; apply andb_true_iff in H; exact H. Qed.

Lemma firstn1_skipn : forall (l : list ascii) k d,
  (k < List.length l)%nat -> firstn 1 (skipn k l) = [nth k l d].
Proof.
  induction l as [|a t IH]; intros k d Hk; simpl in Hk; [lia|].
  destruct k; [reflexivity|simpl; apply IH; lia].
Qed.

(** On an ASCII file whose last line [last] has no LF, the Index Table still
    gives that line a length with the divisor, one byte more than the file
    holds there.  [getLine] on its entry reads the line and then the byte
    that the shared read buffer holds at that position, left by an earlier
    read (or a NUL), and decodes the two together (trimmed). *)
Theorem getLine_last_row_stale : forall disk fd fname max h rest last st ix b,
  disk = (join_lines LFs (h :: rest) ++ last)%string -> ascii_file disk = true ->
  forallb plain_line (h :: rest ++ [last]) = true -> last <> "" -> rest <> [] ->
  max < 0 -> CSVFileParser_new disk fd fname true = Ok st ->
  buildIndex disk fd max st = Ok ix ->
  List.length b = Z.to_nat (max_length (rest ++ [last])) ->
  getLine_record disk (set_reading_buffer ix (Some b)) (Z.of_nat (List.length rest)) =
    if Z.of_nat (String.length last) <? max_length (rest ++ [last])
    then buildLineObject (Some ix)
           (trim (string_of_list_ascii
                    (list_ascii_of_string last ++ [nth (String.length last) b NUL])))
           (Z.of_nat (List.length rest)) HNull
    else Error IOError.
Proof.
  intros disk fd fname max h rest last st ix b Hd Ha Hp Hne Hr Hm Hn Hb Hlb; subst disk.
  change (h :: rest ++ [last])%list with ((h :: rest) ++ [last])%list in Hp.
  apply forallb_app_plain in Hp as [Hp Hlast]; simpl in Hlast.
  rewrite andb_true_r in Hlast.
  assert (Rl : readline_lines (join_lines LFs (h :: rest) ++ last) = h :: rest ++ [last]).
  { unfold readline_lines; rewrite chars_app, rl_join_app by exact Hp.
    rewrite rl_tail by exact Hlast; cbn [rev app].
    destruct (list_ascii_of_string last) as [|a l] eqn:El.
    - exfalso; apply Hne; rewrite <- (string_of_list_ascii_of_string last), El.
      reflexivity.
    - rewrite <- El, string_of_list_ascii_of_string; reflexivity. }
  destruct (buildIndex_fresh _ fd fname max st ix Hm Hn Hb) as (Ho & Hi & B).
  rewrite Rl in B; destruct B as (Hh & _ & Hl & _ & P & _).
  assert (Ne : match index_entries (Z.of_nat (String.length h) + 1) (rest ++ [last])
               with [] => true | _ => false end = false)
    by (destruct rest as [|r rs]; [contradiction|reflexivity]).
  assert (Hr1 : (1 <= List.length rest)%nat)
    by (destruct rest; [contradiction|simpl; lia]).
  unfold getLine_record, getLine, set_reading_buffer.
  cbn [is_open is_indexed index_pool lines reading_buffer].
  rewrite Ho, Hi, P, Hl, Ne; cbn [negb orb].
  replace ((Z.of_nat (List.length rest) =? 0) ||
           (Z.of_nat (S (List.length (rest ++ [last]))) <? Z.of_nat (List.length rest)) ||
           (Z.of_nat (List.length rest) <=? 0))
    with false by (symmetry; rewrite length_app; simpl;
                   apply orb_false_iff; split;
                   [apply orb_false_iff; split; [apply Z.eqb_neq|apply Z.ltb_ge]
                   |apply Z.leb_gt]; lia).
  rewrite Nat2Z.id, index_entries_nth by (rewrite length_app; simpl; lia).
  rewrite app_nth2, Nat.sub_diag by lia; cbn [nth].
  replace (firstn (List.length rest) (rest ++ [last])) with rest
    by (rewrite firstn_app, Nat.sub_diag, firstn_all; simpl; rewrite app_nil_r;
        reflexivity).
  replace (Z.of_nat (String.length last) + 1 =? 0) with false
    by (symmetry; apply Z.eqb_neq; lia).
  unfold readAtIndex.
  replace (Z.to_nat (Z.of_nat (String.length last) + 1))
    with (S (String.length last)) by lia.
  cbn [Nat.eqb].
  pose proof (max_length_nonneg (rest ++ [last])) as M0.
  destruct (Z.of_nat (String.length last) <? max_length (rest ++ [last])) eqn:Ec.
  - apply Z.ltb_lt in Ec.
    replace (List.length b =? 0)%nat with false by (symmetry; apply Nat.eqb_neq; lia).
    replace (List.length b <? S (String.length last))%nat with false
      by (symmetry; apply Nat.ltb_ge; lia).
    rewrite chars_app, skipn_app.
    rewrite join_chars_length.
    replace (Z.to_nat (Z.of_nat (String.length h) + 1 + sum_len rest))
      with (Z.to_nat (sum_len (h :: rest)))
      by (cbn [sum_len fold_right]; reflexivity).
    rewrite Nat.sub_diag, skipn_all2 by (rewrite join_chars_length; lia).
    cbn [app skipn].
    rewrite firstn_all2 by (rewrite chars_length; lia).
    rewrite chars_length.
    replace (S (String.length last))
      with (List.length (list_ascii_of_string last) + 1)%nat
      by (rewrite chars_length; lia).
    rewrite firstn_app_2, (firstn1_skipn b (String.length last) NUL) by lia.
    cbn [bind fst snd].
    match goal with |- context [buildLineObject (Some ?p) ?l ?j ?hd] =>
      rewrite (buildLineObject_self_header p ix l j hd) by reflexivity end.
    destruct (buildLineObject (Some ix) _ _ HNull); reflexivity.
  - apply Z.ltb_ge in Ec.
    destruct (List.length b =? 0)%nat; [reflexivity|].
    replace (List.length b <? S (String.length last))%nat with true
      by (symmetry; apply Nat.ltb_lt; lia).
    reflexivity.
Qed.

Lemma getLine_last_row_stale_witness :
  match getLine disk_unterminated (ok_or_fresh (indexed disk_unterminated (-1))) 1 with
  | Ok (st1, _) =>
      reading_buffer st1 = Some (list_ascii_of_string "1,23456" ++ [LF])%list
  | Error _ => False
  end /\
  getLine_record disk_unterminated
    (set_reading_buffer (ok_or_fresh (indexed disk_unterminated (-1)))
       (Some (list_ascii_of_string "1,23456" ++ [LF])%list)) 2 =
  buildLineObject (Some (ok_or_fresh (indexed disk_unterminated (-1)))) "9," 2 HNull.
Proof.
  split; [vm_compute; reflexivity|].
  etransitivity.
  - apply (getLine_last_row_stale disk_unterminated 3 "data.csv" (-1) "h"
             ["zzzzzzzz"; "1,23456"] "9" (ok_or_fresh (opened disk_unterminated))
             (ok_or_fresh (indexed disk_unterminated (-1)))
             (list_ascii_of_string "1,23456" ++ [LF])%list eq_refl
             ltac:(vm_compute; reflexivity) ltac:(vm_compute; reflexivity) ltac:(discriminate) ltac:(discriminate)
             ltac:(lia) ltac:(vm_compute; reflexivity) ltac:(vm_compute; reflexivity)
             ltac:(vm_compute; reflexivity)).
  - vm_compute; reflexivity.
Defined.

Lemma sum_len_app : forall l1 l2, sum_len (l1 ++ l2) = sum_len l1 + sum_len l2.
Proof.
  induction l1 as [|l t IH]; intros l2; [reflexivity|].
  change (sum_len ((l :: t) ++ l2)) with (Z.of_nat (String.length l) + 1 + sum_len (t ++ l2)).
  change (sum_len (l :: t)) with (Z.of_nat (String.length l) + 1 + sum_len t).
  rewrite IH; lia.
Qed.

(** [size] after [buildIndex()] (no [max]) on a freshly opened engine is the
    byte count of an ASCII file written line by line with LF; when the last line
    has no LF, [size] counts a divisor byte for it too, one more than the
    file holds. *)
Theorem size_counts_file_bytes : forall disk fd fname max ls last st ix,
  disk = (join_lines LFs ls ++ last)%string -> ascii_file disk = true ->
  forallb plain_line (ls ++ [last]) = true ->
  max < 0 -> CSVFileParser_new disk fd fname true = Ok st ->
  buildIndex disk fd max st = Ok ix ->
  size ix = Z.of_nat (String.length disk) + (if String.eqb last "" then 0 else 1).
Proof.
  intros disk fd fname max ls last st ix Hd Ha Hp Hm Hn Hb.
  assert (Hs : size ix = sum_len (readline_lines disk)).
  { destruct (buildIndex_fresh _ fd fname max st ix Hm Hn Hb) as (_ & _ & B).
    destruct (readline_lines disk); destruct B as (_ & _ & _ & E & _); exact E. }
  rewrite Hs; subst disk.
  apply forallb_app_plain in Hp as [Hp Hlast]; simpl in Hlast.
  rewrite andb_true_r in Hlast.
  assert (Len : Z.of_nat (String.length (join_lines LFs ls ++ last)) =
                sum_len ls + Z.of_nat (String.length last)).
  { rewrite <- chars_length, chars_app, length_app, join_chars_length, chars_length.
    pose proof (sum_len_nonneg ls); lia. }
  rewrite Len.
  unfold readline_lines; rewrite chars_app, rl_join_app by exact Hp.
  rewrite rl_tail by exact Hlast; cbn [rev app].
  destruct (String.eqb last "") eqn:E.
  - apply String.eqb_eq in E; subst last; cbn [list_ascii_of_string String.length].
    rewrite app_nil_r; lia.
  - destruct (list_ascii_of_string last) as [|a l] eqn:El.
    + rewrite <- (string_of_list_ascii_of_string last), El in E; simpl in E.
      discriminate.
    + rewrite <- El, string_of_list_ascii_of_string, sum_len_app.
      replace (sum_len [last]) with (Z.of_nat (String.length last) + 1)
        by (unfold sum_len; cbn [fold_right]; lia).
      lia.
Qed.

Lemma size_counts_file_bytes_witness :
  size (ok_or_fresh (indexed disk_unterminated (-1))) =
    Z.of_nat (String.length disk_unterminated) + 1.
Proof.
  apply (size_counts_file_bytes disk_unterminated 3 "data.csv" (-1)
           ["h"; "zzzzzzzz"; "1,23456"] "9" (ok_or_fresh (opened disk_unterminated))
           (ok_or_fresh (indexed disk_unterminated (-1))) eq_refl
           ltac:(vm_compute; reflexivity) ltac:(vm_compute; reflexivity) ltac:(lia) ltac:(vm_compute; reflexivity)
           ltac:(vm_compute; reflexivity)).
Defined.

(** ** [buildIndex()] with a cap (claim C5) *)

(** Claim C5 (as amended): for [1 <= k < totalRows], [buildIndex({max: k})]
    on a freshly opened engine gives [lines == k]; on an ASCII file whose
    lines all end in LF, [size] is then the number of bytes of the first [k]
    lines, header line and LFs included.  For [k >= 2], [getLine(k+1)] then
    fails with RangeError; with [k = 0] the Index Table is empty and every
    [getLine] fails with StateError. *)
Theorem buildIndex_max_cap : forall disk fd fname k st ix,
  CSVFileParser_new disk fd fname true = Ok st ->
  buildIndex disk fd k st = Ok ix ->
  (1 <= k -> k < Z.of_nat (totalRows disk) ->
     lines ix = k /\
     (forall ls, disk = join_lines LFs ls -> ascii_file disk = true ->
        forallb plain_line ls = true ->
        size ix = Z.of_nat (String.length (join_lines LFs (firstn (Z.to_nat k) ls))))) /\
  (2 <= k -> k < Z.of_nat (totalRows disk) ->
     getLine disk ix (k + 1) = Error RangeError) /\
  (k = 0 -> index_pool ix = [] /\ forall i, getLine disk ix i = Error StateError).
Proof.
  intros disk fd fname k st ix Hn Hb.
  destruct (buildIndex_cap_core disk fd fname k st ix Hn Hb) as (A & B & C).
  split; [|split; assumption].
  intros Hk1 Hk2; destruct (A Hk1 Hk2) as [L Sz]; split; [exact L|].
  intros ls Hd Ha Hp; rewrite Sz; subst disk.
  rewrite readline_join by exact Hp.
  rewrite <- chars_length, join_chars_length, Z2Nat.id by apply sum_len_nonneg.
  reflexivity.
Qed.

Lemma buildIndex_max_cap_witness :
  lines (ok_or_fresh (indexed disk_spec 2)) = 2 /\
  size (ok_or_fresh (indexed disk_spec 2)) = 8 /\
  getLine disk_spec (ok_or_fresh (indexed disk_spec 2)) 3 = Error RangeError.
Proof.
  destruct (buildIndex_max_cap disk_spec 3 "data.csv" 2 (ok_or_fresh (opened disk_spec))
              (ok_or_fresh (indexed disk_spec 2)) eq_refl
              ltac:(vm_compute; reflexivity)) as (A & B & _).
  destruct (A ltac:(lia) ltac:(vm_compute; congruence)) as [L Sz].
  split; [exact L|split].
  - rewrite (Sz ["a,b"; "1,2"; "3,4,5"; "6"] eq_refl ltac:(vm_compute; reflexivity)
               ltac:(vm_compute; reflexivity)).
    vm_compute; reflexivity.
  - apply B; vm_compute; congruence.
Defined.
